(** * DataAngelo backend: prompt builder and response extractor

    A shallow embedding of [backend/api.py]: the prompt template
    ([create_database_design_prompt]), the section extractor
    ([extract_sections]) and the three request handlers that use them
    ([design_database], [get_available_models], [query_ollama]).

    Python [str] values are sequences of Unicode code points; they are
    modelled as [list N].  The [sections] dictionary of the extractor is a
    [gmap] keyed by field name. *)

From Stdlib Require Import NArith.
From stdpp Require Import gmap strings list fin_maps.

Local Open Scope N_scope.

(** ** Python strings *)

Module Py.

Abbreviation str := (list N) (only parsing).

(** An ASCII literal of the source, as code points. *)
Definition lit (s : string) : str :=
  map Ascii.N_of_ascii (String.list_ascii_of_string s).

Definition nl : str := [10].

(** [str.isspace] for one code point: the Unicode white space set that
    CPython's [str.strip()] removes. *)
Definition isspace (c : N) : bool :=
  ((9 <=? c) && (c <=? 13)) || ((28 <=? c) && (c <=? 32))
  || (c =? 133) || (c =? 160) || (c =? 5760)
  || ((8192 <=? c) && (c <=? 8202))
  || (c =? 8232) || (c =? 8233) || (c =? 8239) || (c =? 8287)
  || (c =? 12288).

Fixpoint lstrip (s : str) : str :=
  match s with
  | c :: s' => if isspace c then lstrip s' else s
  | [] => []
  end.

Definition rstrip (s : str) : str := rev (lstrip (rev s)).

(** [s.strip()] *)
Definition strip (s : str) : str := rstrip (lstrip s).

(** [s.startswith(p)]: the literal [p] matches at the head of [s]. *)
Fixpoint starts_with (p s : str) : bool :=
  match p, s with
  | [], _ => true
  | _ :: _, [] => false
  | a :: p', b :: s' => (a =? b) && starts_with p' s'
  end.

(** [not s] for a string: true exactly on the empty one. *)
Definition falsy (s : str) : bool :=
  match s with [] => true | _ :: _ => false end.

(** [s.split(sep)] for a non-empty separator: a left-to-right scan for
    non-overlapping occurrences.  [skip] counts the characters of a
    separator just found that are still to be passed over, [cur] holds
    the current part in reverse. *)
Fixpoint split_go (sep : str) (skip : nat) (cur s : str) : list str :=
  match s with
  | [] => [rev cur]
  | c :: s' =>
      match skip with
      | S k => split_go sep k cur s'
      | O =>
          if starts_with sep s
          then rev cur :: split_go sep (length sep - 1) [] s'
          else split_go sep 0 (c :: cur) s'
      end
  end.

Definition split (sep s : str) : list str := split_go sep 0 [] s.

(** [sep.join(parts)] *)
Fixpoint join (sep : str) (parts : list str) : str :=
  match parts with
  | [] => []
  | [p] => p
  | p :: ps => p ++ sep ++ join sep ps
  end.

(** [parts[-1]] of a list known to be non-empty; [[]] stands in for the
    [IndexError] that [split] can never cause. *)
Definition last_part (parts : list str) : str := List.last parts [].

(** *** The fragment of [re] used by the extractor

    All three patterns have the shape [PRE(.*?)STOP] under [re.DOTALL],
    where [PRE] is literal text and [STOP] is either literal text or a
    look-ahead; only group 1 is read.  [lazy_dotall stop s] is the lazy
    group at the head of [s]: the shortest prefix after which [stop]
    succeeds.  [re_search] tries every start position from the left, as
    the backtracking engine does. *)
Fixpoint lazy_dotall (stop : str → bool) (s : str) : option str :=
  if stop s then Some []
  else match s with
       | [] => None
       | c :: s' => cons c <$> lazy_dotall stop s'
       end.

Definition match_at (pre : str) (stop : str → bool) (s : str) : option str :=
  if starts_with pre s then lazy_dotall stop (drop (length pre) s) else None.

Fixpoint re_search (pre : str) (stop : str → bool) (s : str) : option str :=
  match match_at pre stop s with
  | Some g => Some g
  | None =>
      match s with
      | [] => None
      | _ :: s' => re_search pre stop s'
      end
  end.

(** Number of positions of [s] at which the non-empty text [p] occurs. *)
Fixpoint occurrences (p s : str) : nat :=
  match s with
  | [] => 0%nat
  | _ :: s' => ((if starts_with p s then 1 else 0) + occurrences p s')%nat
  end.

(** [s.find(p)]: the least position at which [p] occurs in [s], if any. *)
Fixpoint find (p s : str) : option nat :=
  if starts_with p s then Some 0%nat
  else match s with
       | [] => None
       | _ :: s' => S <$> find p s'
       end.

(** [p in s] *)
Definition contains (p s : str) : bool :=
  match find p s with Some _ => true | None => false end.

End Py.

Import Py.

(** ** Exceptions and results of the handlers *)

Inductive exn :=
| HTTPException (status_code : N) (detail : str)   (* fastapi *)
| RequestException (msg : str)                      (* requests: no answer *)
| HTTPError (status_code : N)                       (* requests: raise_for_status *)
| KeyError (key : string)
| ValidationError                                   (* pydantic *)
| AttributeError
| TypeError.

Inductive outcome (A : Type) :=
| Return (a : A)
| Raise (e : exn).
Arguments Return {A} a.
Arguments Raise {A} e.

(** Sequencing: the first exception raised ends the computation. *)
#[global] Instance outcome_ret : MRet outcome := λ A a, Return a.
#[global] Instance outcome_bind : MBind outcome := λ A B k m,
  match m with
  | Return a => k a
  | Raise e => Raise e
  end.

(** [try: m except C as e: handler(e)], where [catches] tells which
    exceptions belong to the class [C]. *)
Definition try_except {A} (m : outcome A) (catches : exn → bool)
    (handler : exn → outcome A) : outcome A :=
  match m with
  | Return a => Return a
  | Raise e => if catches e then handler e else Raise e
  end.

(** [requests.exceptions.RequestException] and its subclasses. *)
Definition is_request_exception (e : exn) : bool :=
  match e with
  | RequestException _ | HTTPError _ => true
  | _ => false
  end.

(** [Exception]: every exception of the model. *)
Definition any_exception (e : exn) : bool := true.

(** What an HTTP call through [requests] can come back with: no answer at
    all (connection refused, timeout), or a status code and a decoded JSON
    body. *)
Inductive http_reply (A : Type) :=
| NoAnswer (msg : str)
| Answered (status_code : N) (body : A).
Arguments NoAnswer {A} msg.
Arguments Answered {A} status_code body.

(** [response.raise_for_status()] raises on 4xx and 5xx. *)
Definition is_error_status (status_code : N) : bool :=
  (400 <=? status_code) && (status_code <? 600).

Definition raise_for_status {A} (r : http_reply A) : outcome A :=
  match r with
  | NoAnswer msg => Raise (RequestException msg)
  | Answered status_code body =>
      if is_error_status status_code then Raise (HTTPError status_code)
      else Return body
  end.

(** ** Request and response models *)

Record DatabaseRequest := {
  description : str;
  database_type : str
}.

Record DatabaseResponse := {
  erd_mermaid : str;
  sql_queries : str;
  explanation : str
}.

(** Building a [DatabaseResponse] from keyword arguments: every field is
    required. *)
Definition DatabaseResponse_of (kw : gmap string str) : outcome DatabaseResponse :=
  match kw !! "erd_mermaid"%string, kw !! "sql_queries"%string,
        kw !! "explanation"%string with
  | Some d, Some q, Some e =>
      Return {| erd_mermaid := d; sql_queries := q; explanation := e |}
  | _, _, _ => Raise ValidationError
  end.

(** ** The prompt builder *)

Definition mermaid_tag : str := lit "```mermaid".
Definition sql_tag : str := lit "```sql".
Definition explanation_title : str := lit "## Design Explanation".

Definition create_database_design_prompt (description db_type : str) : str :=
  join nl [
    lit "You are an expert database architect. Based on the following application description, design a complete database schema.";
    [];
    lit "Application Description: " ++ description;
    lit "Database Type: " ++ db_type;
    [];
    lit "Please provide your response in exactly this format:";
    [];
    lit "## ERD (Mermaid)";
    lit "```mermaid";
    lit "erDiagram";
    lit "    [Your Entity Relationship Diagram here using Mermaid syntax]";
    lit "```";
    [];
    lit "## SQL Queries";
    lit "```sql";
    lit "-- Your CREATE TABLE statements here";
    lit "-- Include primary keys, foreign keys, indexes, and constraints";
    lit "-- Use MySQL-specific syntax and data types (INT AUTO_INCREMENT, VARCHAR, etc.)";
    lit "-- Include ENGINE=InnoDB and CHARACTER SET specifications";
    lit "```";
    [];
    lit "## Design Explanation";
    lit "Provide a detailed explanation of:";
    lit "1. Why you chose this schema design";
    lit "2. Relationships between tables and their reasoning";
    lit "3. Key design decisions (normalization level, indexing strategy, etc.)";
    lit "4. Scalability considerations";
    lit "5. Any assumptions made about the requirements";
    [];
    lit "Focus on best practices for " ++ db_type
      ++ lit " and ensure the design is normalized, efficient, and scalable."
  ].

(** ** The section extractor *)

Definition fence : str := lit "```".
Definition mermaid_open : str := mermaid_tag ++ nl.       (* ```mermaid\n *)
Definition sql_open : str := sql_tag ++ nl.               (* ```sql\n *)
Definition explanation_heading : str := explanation_title ++ nl.
Definition next_heading : str := nl ++ lit "##".          (* \n## *)

(** The closing [```] of the two block patterns. *)
Definition at_fence (s : str) : bool := starts_with fence s.

(** The look-ahead [(?=\n##|\Z)] of the explanation pattern. *)
Definition at_section_end (s : str) : bool :=
  starts_with next_heading s || falsy s.

Definition extract_sections (response : str) : gmap string str :=
  let sections : gmap string str :=
    {[ "erd_mermaid"%string := []; "sql_queries"%string := [];
       "explanation"%string := [] ]} in
  let sections :=
    match re_search mermaid_open at_fence response with
    | Some g => <["erd_mermaid"%string := strip g]> sections
    | None => sections
    end in
  let sections :=
    match re_search sql_open at_fence response with
    | Some g => <["sql_queries"%string := strip g]> sections
    | None => sections
    end in
  match re_search explanation_heading at_section_end response with
  | Some g => <["explanation"%string := strip g]> sections
  | None =>
      let parts := split fence response in
      if (5 <=? length parts)%nat
      then <["explanation"%string := strip (last_part parts)]> sections
      else sections
  end.

(** [sections.get(key, fallback)] *)
Definition dict_get (sections : gmap string str) (key : string) (fallback : str) : str :=
  default fallback (sections !! key).

(** [[k for k, v in sections.items() if not v.strip()]] *)
Definition missing_sections (sections : gmap string str) : list string :=
  (List.filter (λ kv : string * str, falsy (strip kv.2)) (map_to_list sections)).*1.

(** ** The handlers *)

(** [get_available_models]: the body of [GET /api/tags] is a JSON object
    whose optional [models] entry lists objects with string fields. *)
Inductive models_payload :=
| available_models (names : list str)
| error (msg : str).

Fixpoint model_names (models : list (gmap string str)) : outcome (list str) :=
  match models with
  | [] => Return []
  | model :: rest =>
      match model !! "name"%string with
      | Some name => names ← model_names rest; Return (name :: names)
      | None => Raise (KeyError "name")
      end
  end.

Definition get_available_models
    (tags : http_reply (option (list (gmap string str)))) : outcome models_payload :=
  try_except
    (body ← raise_for_status tags;
     names ← model_names (default [] body);
     Return (available_models names))
    is_request_exception
    (λ _, Return (error (lit "Could not connect to Ollama. Make sure it's running."))).

Section Service.

(** [str(e)] of an exception, as the installed libraries render it. *)
Variable str_exc : exn → str.

(** The inference backend: what [POST /api/generate] answers to a prompt;
    the body is the optional [response] entry of the JSON answer. *)
Variable generate : str → http_reply (option str).

Definition query_ollama (prompt : str) : outcome str :=
  try_except
    (body ← raise_for_status (generate prompt);
     Return (default [] body))
    is_request_exception
    (λ e, Raise (HTTPException 500
                   (lit "Error communicating with Ollama: " ++ str_exc e))).

Definition design_database (request : DatabaseRequest) : outcome DatabaseResponse :=
  try_except
    (let prompt :=
       create_database_design_prompt (description request) (database_type request) in
     response ← query_ollama prompt;
     if falsy response
     then Raise (HTTPException 500 (lit "Empty response from LLM"))
     else
       let sections := extract_sections response in
       match missing_sections sections with
       | _ :: _ =>
           Return {|
             erd_mermaid :=
               dict_get sections "erd_mermaid" (lit "Could not extract Mermaid diagram");
             sql_queries :=
               dict_get sections "sql_queries" (lit "Could not extract SQL queries");
             explanation := dict_get sections "explanation" response
           |}
       | [] => DatabaseResponse_of sections
       end)
    any_exception
    (λ e, Raise (HTTPException 500
                   (lit "Error generating database design: " ++ str_exc e))).

End Service.

(** ** The extraction rules in the words of the specification

    These definitions do not come from the code: they restate, with
    [find], what the specification says each field holds.  The theorems
    below compare them with [extract_sections]. *)

(** The interior of the first fenced block opened by [opener]: the text
    between the first occurrence of [opener] and the first [fence] after
    it. *)
Definition first_block (opener s : str) : option str :=
  i ← find opener s;
  let inside := drop (i + length opener) s in
  j ← find fence inside;
  Some (take j inside).

(** The text of [t] up to the next line that begins with [##], or all of
    [t] when there is none. *)
Definition up_to_next_heading (t : str) : str :=
  match find next_heading t with
  | Some j => take j t
  | None => t
  end.

(** The text that follows the first explanation heading line. *)
Definition after_heading (s : str) : option str :=
  i ← find explanation_heading s;
  Some (drop (i + length explanation_heading) s).

(** A completion that follows the output format of the prompt template,
    with the given block interiors and explanation. *)
Definition full_completion (x y z : str) : str :=
  join nl [
    lit "## ERD (Mermaid)";
    mermaid_tag;
    x;
    fence;
    [];
    lit "## SQL Queries";
    sql_tag;
    y;
    fence;
    [];
    explanation_title;
    z
  ].

(** ** Auxiliary notions used in the proofs *)

(** The [else] branch of the explanation rule, on its own. *)
Definition explanation_fallback (response : list N) : list N :=
  let parts := split fence response in
  if (5 <=? length parts)%nat then strip (last_part parts) else [].

(** A stop condition that, once it has failed on the whole of a text,
    fails on each of its suffixes: the search then never succeeds at a
    later start after the lazy group failed at the first one. *)
Definition fails_on_suffixes (stop : list N → bool) : Prop :=
  ∀ t k, lazy_dotall stop t = None → lazy_dotall stop (drop k t) = None.

(** The reading of the explanation rule with a heading of the same level
    as the stop: a line that begins with exactly two [#]. *)
Definition at_same_level_heading (t : list N) : bool :=
  starts_with next_heading t && negb (starts_with (next_heading ++ lit "#") t).

Fixpoint up_to_same_level_heading (t : list N) : list N :=
  if at_same_level_heading t then []
  else match t with
       | [] => []
       | c :: t' => c :: up_to_same_level_heading t'
       end.

(** The model-listing query failed: no answer, or an error status. *)
Definition listing_failed {A} (tags : http_reply A) : bool :=
  match tags with
  | NoAnswer _ => true
  | Answered status_code _ => is_error_status status_code
  end.

(** ** Sample inputs *)

(** A backend that answers every prompt with the same completion. *)
Definition answering (completion : list N) : list N → http_reply (option (list N)) :=
  λ _, Answered 200 (Some completion).

(** A diagram block and the explanation heading, no SQL block. *)
Definition diagram_only_completion : list N :=
  join nl [
    lit "```mermaid";
    lit "X";
    lit "```";
    [];
    lit "## Design Explanation";
    lit "Z"
  ].

Definition plain_prose : list N :=
  lit "Use three tables: users, posts and comments.".

(** An explanation with a sub-heading one level below the section
    headings. *)
Definition nested_heading_completion : list N :=
  join nl [
    lit "## Design Explanation";
    lit "A";
    lit "### B"
  ].

Definition blog_request : DatabaseRequest :=
  {| description := lit "a blog with posts and comments";
     database_type := lit "MySQL" |}.

(** *** Deciding matches against the fixed text of a template

    [compare_lit p a] compares the pattern [p] with the known text [a]
    when the text that follows [a] is unknown. *)
Inductive verdict := Match | Mismatch | Undecided.

Fixpoint compare_lit (p a : list N) : verdict :=
  match p, a with
  | [], _ => Match
  | _ :: _, [] => Undecided
  | x :: p', y :: a' => if x =? y then compare_lit p' a' else Mismatch
  end.

(** Occurrences of [p] that start inside the known text [a], provided
    each position is decided within [a]. *)
Fixpoint count_lit (p a : list N) : option nat :=
  match a with
  | [] => Some 0%nat
  | _ :: a' =>
      match compare_lit p a with
      | Match => S <$> count_lit p a'
      | Mismatch => count_lit p a'
      | Undecided => None
      end
  end.

(** No proper suffix of [p] can begin a text that begins with [a]: an
    occurrence of [p] cannot start before [a] and run into it. *)
Definition straddle_free (p a : list N) : bool :=
  forallb
    (λ k, match compare_lit (drop k p) a with Mismatch => true | _ => false end)
    (seq 1 (length p - 1)).

(** The same, as a property of the text [r] that follows. *)
Definition no_straddle (p r : list N) : Prop :=
  ∀ k, (0 < k < length p)%nat → starts_with (drop k p) r = false.

(** The fixed text of the prompt template around its three holes. *)
Definition template : list N := create_database_design_prompt [] [].
Definition template_1 : list N := take 147 template.
Definition template_2 : list N := take 16 (drop 147 template).
Definition template_3 : list N := take 752 (drop 163 template).
Definition template_4 : list N := drop 915 template.

(** The three markers that tie the prompt template to the extractor. *)
Inductive marker := MermaidTag | SqlTag | ExplanationTitle.

Definition marker_text (m : marker) : list N :=
  match m with
  | MermaidTag => mermaid_tag
  | SqlTag => sql_tag
  | ExplanationTitle => explanation_title
  end.

(** [clear p a r]: in the text [a ++ r], the pattern [p] does not occur at
    any position inside [a]. *)
Definition clear (p a r : list N) : Prop :=
  ∀ i, (i < length a)%nat → starts_with p (drop i (a ++ r)) = false.

(** The fixed text of [full_completion] around the two blocks. *)
Definition completion_1 : list N := lit "## ERD (Mermaid)" ++ nl.
Definition completion_2 : list N := nl ++ nl ++ lit "## SQL Queries" ++ nl.
Definition completion_3 : list N := nl ++ nl.

(** ** The review handler *)

(** The [validation_prompt] f-string of [validate_design]; every line
    carries the indentation of the function body. *)
Definition validation_prompt (requirements design : list N) : list N :=
  join nl [
    [];
    lit "    Review this database design against the requirements and provide feedback:";
    lit "    ";
    lit "    Requirements: " ++ requirements;
    lit "    ";
    lit "    Current Design: " ++ design;
    lit "    ";
    lit "    Please analyze:";
    lit "    1. Completeness - does it meet all requirements?";
    lit "    2. Normalization - is it properly normalized?";
    lit "    3. Performance - are there potential bottlenecks?";
    lit "    4. Scalability - will it scale well?";
    lit "    5. Security - are there security considerations?";
    lit "    ";
    lit "    Provide specific recommendations for improvement.";
    lit "    "
  ].

(** The answer of [validate_design]: a dictionary with the single entry
    [validation_feedback]. *)
Inductive feedback_payload :=
| validation_feedback (response : list N).

Section Validation.

Variable str_exc : exn → list N.
Variable generate : list N → http_reply (option (list N)).

(** The request is a dictionary of arbitrary values; [format] is how an
    f-string renders one of them (a string is rendered as itself).  The
    fallback of [request.get] is the empty string. *)
Context {V : Type}.
Variable format : V → list N.

Definition validate_design (request : gmap string V) : outcome feedback_payload :=
  let design := from_option format [] (request !! "design"%string) in
  let requirements := from_option format [] (request !! "requirements"%string) in
  try_except
    (response ← query_ollama str_exc generate (validation_prompt requirements design);
     Return (validation_feedback response))
    any_exception
    (λ e, Raise (HTTPException 500
                   (lit "Error validating design: " ++ str_exc e))).

End Validation.

(** The fixed text of [validation_prompt] around its two holes. *)
Definition review_1 : list N := take 103 (validation_prompt [] []).
Definition review_2 : list N := take 26 (drop 103 (validation_prompt [] [])).
Definition review_3 : list N := drop 129 (validation_prompt [] []).

(** A backend that answers every prompt with the prompt itself. *)
Definition echoing : list N → http_reply (option (list N)) :=
  λ prompt, Answered 200 (Some prompt).

(** What the extractor reads in the prompt template: the two sample
    blocks and the instructions under the explanation heading. *)
Definition echo_diagram : list N :=
  join nl [
    lit "erDiagram";
    lit "    [Your Entity Relationship Diagram here using Mermaid syntax]"
  ].

Definition echo_sql : list N :=
  join nl [
    lit "-- Your CREATE TABLE statements here";
    lit "-- Include primary keys, foreign keys, indexes, and constraints";
    lit "-- Use MySQL-specific syntax and data types (INT AUTO_INCREMENT, VARCHAR, etc.)";
    lit "-- Include ENGINE=InnoDB and CHARACTER SET specifications"
  ].

Definition echo_instructions : list N :=
  join nl [
    lit "Provide a detailed explanation of:";
    lit "1. Why you chose this schema design";
    lit "2. Relationships between tables and their reasoning";
    lit "3. Key design decisions (normalization level, indexing strategy, etc.)";
    lit "4. Scalability considerations";
    lit "5. Any assumptions made about the requirements";
    [];
    lit "Focus on best practices for "
  ].

Definition echo_explanation (db_type : list N) : list N :=
  echo_instructions ++ db_type ++ template_4.

(** The fixed text of the template before its diagram block. *)
Definition template_3_head : list N :=
  join nl [
    [];
    [];
    lit "Please provide your response in exactly this format:";
    [];
    lit "## ERD (Mermaid)";
    []
  ].

(** Two entries of the model list of the backend, and one without a
    name. *)
Definition named_model (name : list N) : gmap string (list N) :=
  {[ "name"%string := name; "digest"%string := lit "sha256" ]}.

Definition nameless_model : gmap string (list N) :=
  {[ "digest"%string := lit "sha256" ]}.

(** ** Answers of the backend of any JSON shape

    The handlers above take the answers of the backend as already decoded
    and of the expected shape.  Here the body of an answer is any text:
    it may fail to decode, decode to something that is not an object, or
    hold entries of any JSON type.  [J] stands for the JSON values that
    are not strings.  A body that does not decode makes [response.json()]
    raise the decoding error of [requests], which is a
    [RequestException] (requests 2.27 and later). *)

Inductive json_value (J : Type) :=
| JString (s : list N)
| JOther (j : J).
Arguments JString {J} s.
Arguments JOther {J} j.

(** The body of an answer to [POST /api/generate]. *)
Inductive generate_body (J : Type) :=
| NotJson (msg : list N)                          (* does not decode *)
| NotObject                                       (* an array, string, number, boolean or null *)
| JsonObject (response : option (json_value J)).  (* an object and its [response] entry *)
Arguments NotJson {J} msg.
Arguments NotObject {J}.
Arguments JsonObject {J} response.

(** [response.json().get("response", "")] *)
Definition response_entry {J} (body : generate_body J) : outcome (json_value J) :=
  match body with
  | NotJson msg => Raise (RequestException msg)
  | NotObject => Raise AttributeError
  | JsonObject response => Return (default (JString []) response)
  end.

(** The request exception that the call to the backend raises, if any. *)
Definition request_failure {J} (reply : http_reply (generate_body J)) : option exn :=
  match reply with
  | NoAnswer msg => Some (RequestException msg)
  | Answered status_code body =>
      if is_error_status status_code then Some (HTTPError status_code)
      else match body with
           | NotJson msg => Some (RequestException msg)
           | _ => None
           end
  end.

(** An element of the [models] list: an object and its [name] entry, or
    any other value, which [model["name"]] cannot index. *)
Inductive model_item (J : Type) :=
| ItemObject (name : option (json_value J))
| ItemOther.
Arguments ItemObject {J} name.
Arguments ItemOther {J}.

(** The [models] entry of the body of an answer to [GET /api/tags]. *)
Inductive models_entry (J : Type) :=
| ModelList (items : list (model_item J))
| NothingToIterate   (* the empty string or the empty object *)
| TextOrObject       (* a non-empty string or object: its elements are strings *)
| NotIterable.       (* null, a number or a boolean *)
Arguments ModelList {J} items.
Arguments NothingToIterate {J}.
Arguments TextOrObject {J}.
Arguments NotIterable {J}.

Inductive tags_body (J : Type) :=
| TagsNotJson (msg : list N)
| TagsNotObject
| TagsObject (models : option (models_entry J)).
Arguments TagsNotJson {J} msg.
Arguments TagsNotObject {J}.
Arguments TagsObject {J} models.

(** [response.json().get("models", [])] *)
Definition models_of {J} (body : tags_body J) : outcome (models_entry J) :=
  match body with
  | TagsNotJson msg => Raise (RequestException msg)
  | TagsNotObject => Raise AttributeError
  | TagsObject models => Return (default (ModelList []) models)
  end.

(** [[model["name"] for model in models]] over a list. *)
Fixpoint item_names {J} (items : list (model_item J)) : outcome (list (json_value J)) :=
  match items with
  | [] => Return []
  | ItemOther :: _ => Raise TypeError
  | ItemObject None :: _ => Raise (KeyError "name")
  | ItemObject (Some name) :: rest =>
      names ← item_names rest; Return (name :: names)
  end.

(** The same over any value of the [models] entry. *)
Definition entry_names {J} (models : models_entry J) : outcome (list (json_value J)) :=
  match models with
  | ModelList items => item_names items
  | NothingToIterate => Return []
  | TextOrObject => Raise TypeError
  | NotIterable => Raise TypeError
  end.

Inductive json_models_payload (J : Type) :=
| available_models_json (names : list (json_value J))
| error_json (msg : list N).
Arguments available_models_json {J} names.
Arguments error_json {J} msg.

Definition get_available_models_json {J}
    (tags : http_reply (tags_body J)) : outcome (json_models_payload J) :=
  try_except
    (body ← raise_for_status tags;
     models ← models_of body;
     names ← entry_names models;
     Return (available_models_json names))
    is_request_exception
    (λ _, Return (error_json (lit "Could not connect to Ollama. Make sure it's running."))).

Inductive json_feedback (J : Type) :=
| validation_feedback_json (response : json_value J).
Arguments validation_feedback_json {J} response.

Section JsonService.

Variable str_exc : exn → list N.
Context {J : Type}.
Variable generate : list N → http_reply (generate_body J).

Definition query_ollama_json (prompt : list N) : outcome (json_value J) :=
  try_except
    (body ← raise_for_status (generate prompt);
     response_entry body)
    is_request_exception
    (λ e, Raise (HTTPException 500
                   (lit "Error communicating with Ollama: " ++ str_exc e))).

Context {V : Type}.
Variable format : V → list N.

Definition validate_design_json (request : gmap string V) : outcome (json_feedback J) :=
  let design := from_option format [] (request !! "design"%string) in
  let requirements := from_option format [] (request !! "requirements"%string) in
  try_except
    (response ← query_ollama_json (validation_prompt requirements design);
     Return (validation_feedback_json response))
    any_exception
    (λ e, Raise (HTTPException 500
                   (lit "Error validating design: " ++ str_exc e))).

End JsonService.

(** The answers of the expected shape, among all answers. *)
Definition generate_body_of {J} (response : option (list N)) : generate_body J :=
  JsonObject (JString <$> response).

Definition tags_body_of {J} (models : option (list (gmap string (list N)))) : tags_body J :=
  TagsObject
    ((λ items, ModelList
                 ((λ model : gmap string (list N),
                     ItemObject (JString <$> model !! "name"%string)) <$> items))
     <$> models).

Definition reply_of {A B} (f : A → B) (reply : http_reply A) : http_reply B :=
  match reply with
  | NoAnswer msg => NoAnswer msg
  | Answered status_code body => Answered status_code (f body)
  end.

Definition outcome_of {A B} (f : A → B) (m : outcome A) : outcome B :=
  match m with
  | Return a => Return (f a)
  | Raise e => Raise e
  end.

Definition json_payload_of {J} (p : models_payload) : json_models_payload J :=
  match p with
  | available_models names => available_models_json (JString <$> names)
  | error msg => error_json msg
  end.

(** ** Notions used to state what the extractor reads *)

(** [v] is [s] without its leading and trailing white space: what is cut
    off on either side is white space only, and [v] neither begins nor
    ends with white space. *)
Definition is_trim_of (v s : list N) : Prop :=
  ∃ l r, s = l ++ v ++ r
         ∧ forallb isspace l = true ∧ forallb isspace r = true
         ∧ match v with
           | [] => True
           | c :: _ => isspace c = false ∧ isspace (List.last v c) = false
           end.

(** [body] is the interior of the first block of [response] opened by
    [opener]: the first occurrence of [opener], then the text up to the
    first fence after it. *)
Definition is_first_block (opener response body : list N) : Prop :=
  ∃ a rest, response = a ++ opener ++ body ++ fence ++ rest
            ∧ clear opener a (opener ++ body ++ fence ++ rest)
            ∧ clear fence body (fence ++ rest).

(** Some occurrence of [opener] in [response] has a fence after it. *)
Definition has_block (opener response : list N) : Prop :=
  ∃ a body rest, response = a ++ opener ++ body ++ fence ++ rest.

(** *** The two extraction rules read without the line feed

    The rules as they are worded for a tag and a heading, not for a tag
    line and a heading line: a block is opened by the fence and its tag,
    whatever follows the tag; the explanation begins right after the
    heading text and ends before the next heading of the same level. *)
Definition tagged_block_interior (tag s : list N) : option (list N) :=
  strip <$> first_block tag s.

Definition after_title (s : list N) : option (list N) :=
  i ← find explanation_title s;
  Some (drop (i + length explanation_title) s).

Definition explanation_to_same_level_heading (s : list N) : option (list N) :=
  (strip ∘ up_to_same_level_heading) <$> after_title s.

(** *** More sample inputs *)

Definition cr : list N := [13].

(** An explanation with white space around it and a sub-heading. *)
Definition padded_explanation_completion : list N :=
  join nl [
    lit "Here is the design.";
    lit "## Design Explanation";
    lit "   A  ";
    lit "### B"
  ].

(** A heading of the same level stands right after the heading line. *)
Definition adjacent_heading_completion : list N :=
  join nl [
    lit "## Design Explanation";
    lit "## Next";
    lit "B"
  ].

(** The heading line ends with a carriage return and a line feed. *)
Definition crlf_heading_completion : list N :=
  lit "## Design Explanation" ++ cr ++ nl ++ lit "Z".

(** The tag of the diagram block is followed by a space. *)
Definition spaced_tag_completion : list N :=
  join nl [
    lit "```mermaid ";
    lit "X";
    lit "```"
  ].

(** The lines of the SQL block end with a carriage return and a line
    feed. *)
Definition crlf_block_completion : list N :=
  lit "```sql" ++ cr ++ nl ++ lit "Y" ++ cr ++ nl ++ lit "```".

(** Two blocks whose interiors carry white space on both sides. *)
Definition padded_blocks_completion : list N :=
  join nl [
    lit "```mermaid";
    lit "  X ";
    [];
    lit "```";
    lit "```sql";
    [];
    lit "   Y";
    lit "```"
  ].

(** * Properties *)

(** ** Concrete runs *)

Example strip_demo : strip (lit "  a b " ++ nl) = lit "a b".
Proof. reflexivity. Qed.

Example split_demo :
  split fence (lit "a```b````c") = [lit "a"; lit "b"; lit "`c"].
Proof. reflexivity. Qed.

Example find_demo : find fence (lit "ab```c") = Some 2%nat.
Proof. reflexivity. Qed.

(** ** Literal matching and [find] *)

Lemma starts_with_prefix (p s : list N) :
  starts_with p s = true ↔ p `prefix_of` s.
Proof.
  revert s. induction p as [|a p IH]; intros s; simpl.
  - split; [intros _; apply prefix_nil | done].
  - destruct s as [|b s].
    + split; [done | intros H; by apply prefix_nil_inv in H].
    + rewrite andb_true_iff, IH, N.eqb_eq. split.
      * intros [-> H]. by apply prefix_cons.
      * intros H. split; [by apply prefix_cons_inv_1 in H | by apply prefix_cons_inv_2 in H].
Qed.

Lemma starts_with_app (p t : list N) : starts_with p (p ++ t) = true.
Proof. apply starts_with_prefix. by apply prefix_app_r. Qed.

Lemma starts_with_split (p s : list N) :
  starts_with p s = true → s = p ++ drop (length p) s.
Proof.
  intros [k ->]%starts_with_prefix. by rewrite drop_app_length.
Qed.

Lemma find_Some (p s : list N) (i : nat) :
  find p s = Some i ↔
    starts_with p (drop i s) = true ∧ (i ≤ length s)%nat ∧
    ∀ j, (j < i)%nat → starts_with p (drop j s) = false.
Proof.
  revert i. induction s as [|c s IH]; intros i.
  - simpl. destruct (starts_with p []) eqn:E.
    + split.
      * intros [= <-]. split; [done|]. split; [done | intros; lia].
      * intros (_ & Hi & _). simpl in Hi. f_equal. lia.
    + split; [done|]. intros (H & _ & _). rewrite drop_nil in H. congruence.
  - cbn [find]. destruct (starts_with p (c :: s)) eqn:E.
    + split.
      * intros [= <-]. split; [done|]. split; [simpl; lia | intros; lia].
      * intros (_ & _ & Hmin). destruct i as [|i]; [done|].
        specialize (Hmin 0%nat ltac:(lia)). simpl in Hmin. congruence.
    + destruct i as [|i].
      * split; [by destruct (find p s) | intros (H & _); simpl in H; congruence].
      * destruct (find p s) as [k|] eqn:F; simpl.
        -- split.
           ++ intros [= <-]. destruct (proj1 (IH k) eq_refl) as (F1 & F2 & F3).
              split; [done|]. split; [simpl; lia|].
              intros [|j] Hj; [done|]. apply F3. lia.
           ++ intros (H1 & H2 & H3). f_equal.
              enough (Some k = Some i) by congruence. apply IH.
              split; [done|]. split; [simpl in H2; lia|].
              intros j Hj. apply (H3 (S j)). lia.
        -- split; [done|]. intros (H1 & H2 & H3).
           enough (@None nat = Some i) by done.
           apply IH. split; [done|]. split; [simpl in H2; lia|].
           intros j Hj. apply (H3 (S j)). lia.
Qed.

Lemma find_None (p s : list N) :
  find p s = None ↔ ∀ j, starts_with p (drop j s) = false.
Proof.
  induction s as [|c s IH].
  - simpl. destruct (starts_with p []) eqn:E.
    + split; [done|]. intros H. specialize (H 0%nat). simpl in H. congruence.
    + split; [|done]. intros _ j. by rewrite drop_nil.
  - cbn [find]. destruct (starts_with p (c :: s)) eqn:E.
    + split; [done|]. intros H. specialize (H 0%nat). simpl in H. congruence.
    + destruct (find p s) as [k|] eqn:F; simpl.
      * split; [done|]. intros H.
        enough (Some k = None) by done.
        apply IH. intros j. apply (H (S j)).
      * split; [|done]. intros _ [|j]; [done|]. simpl. by apply IH.
Qed.

Lemma contains_true (p s : list N) :
  contains p s = true ↔ ∃ a b, s = a ++ p ++ b.
Proof.
  unfold contains. split.
  - destruct (find p s) as [i|] eqn:F; [|done]. intros _.
    apply find_Some in F as (F & Hi & _).
    exists (take i s), (drop (length p) (drop i s)).
    rewrite <- (starts_with_split _ _ F). by rewrite take_drop.
  - intros (a & b & ->). destruct (find p (a ++ p ++ b)) eqn:F; [done|].
    exfalso. apply (proj1 (find_None _ _)) with (j := length a) in F.
    rewrite drop_app_length, starts_with_app in F. done.
Qed.

Lemma contains_false (p s : list N) :
  contains p s = false ↔ ∀ j, starts_with p (drop j s) = false.
Proof.
  unfold contains. rewrite <- find_None. by destruct (find p s).
Qed.

(** ** The lazy group and the search, in terms of [find] *)

Lemma find_None_drop (p t : list N) (k : nat) :
  find p t = None → find p (drop k t) = None.
Proof.
  rewrite !find_None. intros H j. rewrite drop_drop. apply H.
Qed.

Lemma lazy_dotall_literal (post t : list N) :
  lazy_dotall (starts_with post) t = (j ← find post t; Some (take j t)).
Proof.
  induction t as [|c t IH]; simpl.
  - by destruct (starts_with post []).
  - destruct (starts_with post (c :: t)); [done|].
    rewrite IH. by destruct (find post t).
Qed.

Lemma lazy_dotall_section_end (t : list N) :
  lazy_dotall at_section_end t = Some (up_to_next_heading t).
Proof.
  unfold up_to_next_heading.
  induction t as [|c t IH]; [done|].
  cbn [lazy_dotall find]. unfold at_section_end at 1.
  cbn [falsy]. rewrite orb_false_r.
  destruct (starts_with next_heading (c :: t)); [done|].
  rewrite IH. by destruct (find next_heading t).
Qed.

Lemma re_search_find (pre : list N) (stop : list N → bool) (s : list N) :
  fails_on_suffixes stop →
  re_search pre stop s
  = (i ← find pre s; lazy_dotall stop (drop (i + length pre) s)).
Proof.
  intros Hstop. induction s as [|c s IH].
  - simpl. unfold match_at. destruct (starts_with pre []); [|done].
    simpl. by destruct (lazy_dotall stop (drop (length pre) [])).
  - cbn [re_search find]. unfold match_at.
    destruct (starts_with pre (c :: s)).
    + change (0 + length pre)%nat with (length pre). cbn [mbind option_bind].
      destruct (lazy_dotall stop (drop (length pre) (c :: s))) eqn:E; [done|].
      rewrite IH. destruct (find pre s) as [i|]; [|done]. simpl.
      replace (drop (i + length pre) s)
        with (drop (S i) (drop (length pre) (c :: s))).
      * rewrite ?E. by apply Hstop.
      * rewrite drop_drop. by replace (length pre + S i)%nat with (S (i + length pre)) by lia.
    + rewrite IH. by destruct (find pre s).
Qed.

Lemma fence_fails_on_suffixes : fails_on_suffixes at_fence.
Proof.
  intros t k. unfold at_fence. rewrite !lazy_dotall_literal.
  destruct (find fence t) eqn:F; [done|]. intros _.
  by rewrite (find_None_drop _ _ k F).
Qed.

Lemma section_end_fails_on_suffixes : fails_on_suffixes at_section_end.
Proof. intros t k. by rewrite lazy_dotall_section_end. Qed.

(** The two block patterns find the first tagged block. *)
Lemma re_search_block (opener s : list N) :
  re_search opener at_fence s = first_block opener s.
Proof.
  rewrite re_search_find by apply fence_fails_on_suffixes.
  unfold first_block. destruct (find opener s); [|done]. simpl.
  apply lazy_dotall_literal.
Qed.

(** The explanation pattern finds the first heading line and reads up to
    the next line that begins with [##]. *)
Lemma re_search_heading (s : list N) :
  re_search explanation_heading at_section_end s
  = up_to_next_heading <$> after_heading s.
Proof.
  rewrite re_search_find by apply section_end_fails_on_suffixes.
  unfold after_heading. destruct (find explanation_heading s); [|done]. simpl.
  apply lazy_dotall_section_end.
Qed.

(** ** Counting occurrences around unknown text *)

Lemma compare_lit_Match (p a t : list N) :
  compare_lit p a = Match → starts_with p (a ++ t) = true.
Proof.
  revert a. induction p as [|x p IH]; intros [|y a]; simpl; try done.
  destruct (x =? y); [|done]. intros H. by apply IH.
Qed.

Lemma compare_lit_Mismatch (p a t : list N) :
  compare_lit p a = Mismatch → starts_with p (a ++ t) = false.
Proof.
  revert a. induction p as [|x p IH]; intros [|y a]; simpl; try done.
  destruct (x =? y); [|done]. intros H. by apply IH.
Qed.

Lemma count_lit_app (p a t : list N) (n : nat) :
  count_lit p a = Some n →
  occurrences p (a ++ t) = (n + occurrences p t)%nat.
Proof.
  revert n. induction a as [|y a IH]; intros n; simpl.
  - by intros [= <-].
  - destruct (compare_lit p (y :: a)) eqn:E; [| |done].
    + apply compare_lit_Match with (t := t) in E. simpl in E. rewrite E.
      destruct (count_lit p a) as [m|]; [|done]. intros [= <-].
      by rewrite (IH m).
    + apply compare_lit_Mismatch with (t := t) in E. simpl in E. rewrite E.
      intros H. by rewrite (IH n).
Qed.

(** A match that begins in [x] and continues into [r] either lies within
    [x] or leaves a proper, non-empty rest of the pattern at the head of
    [r]. *)
Lemma starts_with_straddle (p x r : list N) :
  starts_with p (x ++ r) = true →
  starts_with p x = true
  ∨ ((length x < length p)%nat ∧ starts_with (drop (length x) p) r = true).
Proof.
  revert p. induction x as [|a x IH]; intros [|b p]; simpl; auto.
  - intros H. right. split; [lia | done].
  - rewrite !andb_true_iff. intros [Hab H].
    destruct (IH _ H) as [H'|[Hlen H']]; [by left | right].
    split; [lia | done].
Qed.

Lemma starts_with_app_l (p x r : list N) :
  starts_with p x = true → starts_with p (x ++ r) = true.
Proof.
  intros [k ->]%starts_with_prefix. rewrite <- app_assoc. apply starts_with_app.
Qed.

Lemma straddle_free_spec (p a t : list N) :
  straddle_free p a = true → no_straddle p (a ++ t).
Proof.
  unfold straddle_free. rewrite forallb_forall. intros H k Hk.
  specialize (H k). rewrite in_seq in H.
  specialize (H ltac:(lia)).
  destruct (compare_lit (drop k p) a) eqn:E; try done.
  by apply compare_lit_Mismatch.
Qed.

Lemma starts_with_inside (p x r : list N) :
  no_straddle p r → x ≠ [] →
  starts_with p (x ++ r) = starts_with p x.
Proof.
  intros Hr Hx. destruct (starts_with p x) eqn:E.
  - by apply starts_with_app_l.
  - destruct (starts_with p (x ++ r)) eqn:E'; [|done].
    apply starts_with_straddle in E' as [E'|[Hlen E']]; [congruence|].
    rewrite Hr in E'; [done|]. destruct x; [done | simpl; simpl in Hlen; lia].
Qed.

Lemma occurrences_app (p d r : list N) :
  no_straddle p r →
  occurrences p (d ++ r) = (occurrences p d + occurrences p r)%nat.
Proof.
  intros Hr. induction d as [|c d IH]; [done|].
  cbn [occurrences app].
  change (c :: d ++ r) with ((c :: d) ++ r).
  rewrite (starts_with_inside _ (c :: d)) by done.
  rewrite IH. lia.
Qed.

Lemma occurrences_0 (p s : list N) :
  p ≠ [] → occurrences p s = 0%nat ↔ contains p s = false.
Proof.
  intros Hp. rewrite contains_false. induction s as [|c s IH].
  - split; [|done]. intros _ j. rewrite drop_nil. by destruct p.
  - cbn [occurrences]. split.
    + intros H. destruct (starts_with p (c :: s)) eqn:E; [lia|].
      intros [|j]; [done|]. simpl. apply IH. lia.
    + intros H. pose proof (H 0%nat) as H0. simpl in H0. rewrite H0.
      simpl. apply IH. intros j. apply (H (S j)).
Qed.

(** ** Locating a pattern behind text that is free of it *)

Lemma find_head (p r : list N) : starts_with p r = true → find p r = Some 0%nat.
Proof. intros H. destruct r; simpl; by rewrite H. Qed.

Lemma find_clear (p a r : list N) :
  clear p a r → find p (a ++ r) = (λ i, length a + i)%nat <$> find p r.
Proof.
  induction a as [|c a IH]; intros Hc.
  - simpl. by destruct (find p r).
  - pose proof (Hc 0%nat ltac:(simpl; lia)) as H0. simpl in H0.
    cbn [app find]. rewrite H0.
    rewrite IH.
    + by destruct (find p r).
    + intros i Hi. apply (Hc (S i)). simpl. lia.
Qed.

Lemma clear_app (p a b r : list N) :
  clear p a (b ++ r) → clear p b r → clear p (a ++ b) r.
Proof.
  intros Ha Hb i Hi. rewrite <- app_assoc.
  destruct (decide (i < length a)%nat) as [Hlt|Hge].
  - by apply Ha.
  - rewrite drop_app_ge by lia. apply Hb. rewrite length_app in Hi. lia.
Qed.

Lemma clear_lit (p a r : list N) : count_lit p a = Some 0%nat → clear p a r.
Proof.
  induction a as [|y a IH]; intros Hc i Hi; [simpl in Hi; lia|].
  simpl in Hc. destruct (compare_lit p (y :: a)) eqn:E; [| |done].
  - by destruct (count_lit p a).
  - destruct i as [|i].
    + by apply compare_lit_Mismatch.
    + apply (IH Hc i). simpl in Hi. lia.
Qed.

Lemma clear_free (p d r : list N) :
  contains p d = false → no_straddle p r → clear p d r.
Proof.
  intros Hd Hr i Hi. rewrite drop_app_le by lia.
  rewrite starts_with_inside; [by apply contains_false | done |].
  intros Hnil. apply (f_equal length) in Hnil.
  rewrite length_drop in Hnil. simpl in Hnil. lia.
Qed.

Lemma starts_with_longer (q e s : list N) :
  starts_with (q ++ e) s = true → starts_with q s = true.
Proof.
  rewrite !starts_with_prefix. intros [k ->]. rewrite <- app_assoc.
  by apply prefix_app_r.
Qed.

Lemma clear_longer (q e a r : list N) : clear q a r → clear (q ++ e) a r.
Proof.
  intros Hq i Hi. specialize (Hq i Hi).
  destruct (starts_with (q ++ e) (drop i (a ++ r))) eqn:E; [|done].
  apply starts_with_longer in E. congruence.
Qed.

Lemma first_block_at (opener a body rest : list N) :
  clear opener a (opener ++ body ++ fence ++ rest) →
  clear fence body (fence ++ rest) →
  first_block opener (a ++ opener ++ body ++ fence ++ rest) = Some body.
Proof.
  intros Ha Hb. unfold first_block.
  rewrite (find_clear _ _ _ Ha), (find_head _ _ (starts_with_app _ _)).
  cbn [fmap option_fmap option_map mbind option_bind].
  rewrite Nat.add_0_r, <- drop_drop, !drop_app_length.
  rewrite (find_clear _ _ _ Hb), (find_head _ _ (starts_with_app _ _)).
  cbn [fmap option_fmap option_map mbind option_bind].
  by rewrite Nat.add_0_r, take_app_length.
Qed.

Lemma after_heading_at (a t : list N) :
  clear explanation_heading a (explanation_heading ++ t) →
  after_heading (a ++ explanation_heading ++ t) = Some t.
Proof.
  intros Ha. unfold after_heading.
  rewrite (find_clear _ _ _ Ha), (find_head _ _ (starts_with_app _ _)).
  cbn [fmap option_fmap option_map mbind option_bind].
  by rewrite Nat.add_0_r, <- drop_drop, !drop_app_length.
Qed.

Lemma up_to_next_heading_all (z : list N) :
  contains next_heading z = false → up_to_next_heading z = z.
Proof.
  unfold contains, up_to_next_heading. by destruct (find next_heading z).
Qed.

(** ** Trimming *)

Lemma lstrip_length (s : list N) : (length (lstrip s) ≤ length s)%nat.
Proof.
  induction s as [|c s IH]; simpl; [done|]. destruct (isspace c); simpl; lia.
Qed.

Lemma strip_length (s : list N) : (length (strip s) ≤ length s)%nat.
Proof.
  unfold strip, rstrip. rewrite length_rev.
  etrans; [apply lstrip_length|]. rewrite length_rev. apply lstrip_length.
Qed.

Lemma strip_fixed_head (c : N) (s : list N) :
  strip (c :: s) = c :: s → isspace c = false.
Proof.
  intros H. destruct (isspace c) eqn:E; [|done].
  apply (f_equal length) in H. unfold strip in H. simpl in H. rewrite E in H.
  pose proof (strip_length s) as Hl. unfold strip in Hl. lia.
Qed.

(** A trimmed text followed by one white-space character trims back to
    itself. *)
Lemma strip_app_space (x : list N) (c : N) :
  isspace c = true → strip x = x → strip (x ++ [c]) = x.
Proof.
  intros Hc Hx. destruct x as [|a x].
  - unfold strip. simpl. by rewrite Hc.
  - pose proof (strip_fixed_head _ _ Hx) as Ha.
    unfold strip in *. simpl in *. rewrite Ha in *.
    unfold rstrip in *. change (a :: x ++ [c]) with ((a :: x) ++ [c]).
    rewrite rev_app_distr. simpl. by rewrite Hc.
Qed.

(** ** [split] and [join] *)

Lemma split_go_skip (sep : list N) (k : nat) (cur s : list N) :
  split_go sep k cur s = split_go sep 0 cur (drop k s).
Proof.
  revert k. induction s as [|c s IH]; intros [|k]; try done.
  simpl. apply IH.
Qed.

Lemma split_go_cons (sep cur : list N) (c : N) (s : list N) :
  sep ≠ [] →
  split_go sep 0 cur (c :: s)
  = if starts_with sep (c :: s)
    then rev cur :: split_go sep 0 [] (drop (length sep) (c :: s))
    else split_go sep 0 (c :: cur) s.
Proof.
  intros Hsep. cbn [split_go]. destruct (starts_with sep (c :: s)); [|done].
  rewrite split_go_skip. destruct sep as [|a sep]; [done|].
  simpl. by rewrite Nat.sub_0_r.
Qed.

Lemma split_go_nonempty (sep : list N) (k : nat) (cur s : list N) :
  split_go sep k cur s ≠ [].
Proof.
  revert k cur. induction s as [|c s IH]; intros k cur; [done|].
  simpl. destruct k; [|apply IH].
  destruct (starts_with sep (c :: s)); [done | apply IH].
Qed.

Lemma join_cons (sep p : list N) (parts : list (list N)) :
  parts ≠ [] → join sep (p :: parts) = p ++ sep ++ join sep parts.
Proof. by destruct parts. Qed.

Lemma split_go_join (sep : list N) (n : nat) :
  sep ≠ [] →
  ∀ s cur, (length s ≤ n)%nat → join sep (split_go sep 0 cur s) = rev cur ++ s.
Proof.
  intros Hsep.
  assert (0 < length sep)%nat as Hlen by (destruct sep; [done | simpl; lia]).
  induction n as [|n IH]; intros [|c s] cur Hn.
  1,3: simpl; by rewrite app_nil_r.
  { simpl in Hn. lia. }
  rewrite split_go_cons by done.
  destruct (starts_with sep (c :: s)) eqn:E.
  - rewrite join_cons by apply split_go_nonempty.
    rewrite IH.
    + simpl. by rewrite <- (starts_with_split _ _ E).
    + rewrite length_drop. simpl in Hn. simpl. lia.
  - rewrite IH by (simpl in Hn; lia). simpl. by rewrite <- app_assoc.
Qed.

(** Joining the parts of a split with the separator gives the text back. *)
Lemma split_join (sep s : list N) : sep ≠ [] → join sep (split sep s) = s.
Proof. intros Hsep. apply (split_go_join sep (length s) Hsep s []). done. Qed.

Lemma clear_contains (p a r : list N) :
  p ≠ [] → clear p a r → contains p a = false.
Proof.
  intros Hp Ha. apply contains_false. intros j.
  destruct (decide (j < length a)%nat) as [Hlt|Hge].
  - destruct (starts_with p (drop j a)) eqn:E; [|done].
    apply starts_with_app_l with (r := r) in E.
    rewrite <- drop_app_le in E by lia. by rewrite Ha in E.
  - rewrite drop_ge by lia. by destruct p.
Qed.

Lemma split_go_parts_free (sep : list N) (n : nat) :
  sep ≠ [] →
  ∀ s cur, (length s ≤ n)%nat → clear sep (rev cur) s →
    Forall (λ part, contains sep part = false) (split_go sep 0 cur s).
Proof.
  intros Hsep.
  assert (0 < length sep)%nat as Hlen by (destruct sep; [done | simpl; lia]).
  induction n as [|n IH]; intros [|c s] cur Hn Hc.
  1,3: simpl; repeat constructor; by apply (clear_contains _ _ []).
  { simpl in Hn. lia. }
  rewrite split_go_cons by done.
  destruct (starts_with sep (c :: s)) eqn:E.
  - constructor; [by apply (clear_contains _ _ (c :: s))|].
    apply IH.
    + rewrite length_drop. simpl in Hn. simpl. lia.
    + intros i Hi. simpl in Hi. lia.
  - apply IH; [simpl in Hn; lia|]. simpl. apply clear_app; [done|].
    intros [|i] Hi; [done | simpl in Hi; lia].
Qed.

(** No part of a split holds the separator. *)
Lemma split_parts_free (sep s : list N) :
  sep ≠ [] → Forall (λ part, contains sep part = false) (split sep s).
Proof.
  intros Hsep. apply (split_go_parts_free sep (length s) Hsep s []); [done|].
  intros i Hi. simpl in Hi. lia.
Qed.

Lemma join_last_part (sep : list N) (parts : list (list N)) :
  (2 ≤ length parts)%nat →
  ∃ u, join sep parts = u ++ sep ++ last_part parts.
Proof.
  induction parts as [|p parts IH]; [simpl; lia|].
  destruct parts as [|q rest]; [simpl; lia|]. intros _.
  destruct rest as [|r rest].
  - by exists p.
  - destruct IH as [u Hu]; [simpl; lia|].
    exists (p ++ sep ++ u). rewrite join_cons by done. rewrite Hu.
    unfold last_part. by rewrite <- !app_assoc.
Qed.

Lemma Forall_last_part (P : list N → Prop) (parts : list (list N)) :
  parts ≠ [] → Forall P parts → P (last_part parts).
Proof.
  unfold last_part. induction parts as [|p parts IH]; [done|].
  intros _ HP. apply Forall_cons in HP as [Hp HP].
  destruct parts as [|q rest]; [done|]. by apply IH.
Qed.

(** With a separator in the text, the last part of the split is the text
    after a separator, and holds no separator itself. *)
Lemma split_last_part (sep s : list N) :
  sep ≠ [] → (2 ≤ length (split sep s))%nat →
  ∃ u, s = u ++ sep ++ last_part (split sep s)
       ∧ contains sep (last_part (split sep s)) = false.
Proof.
  intros Hsep Hlen.
  destruct (join_last_part sep _ Hlen) as [u Hu].
  rewrite split_join in Hu by done. exists u. split; [done|].
  apply (Forall_last_part (λ part, contains sep part = false)).
  - apply split_go_nonempty.
  - by apply split_parts_free.
Qed.

(** ** What [first_block] and [after_heading] find *)

Lemma first_block_inv (opener s body : list N) :
  first_block opener s = Some body →
  ∃ a rest, s = a ++ opener ++ body ++ fence ++ rest
            ∧ clear opener a (opener ++ body ++ fence ++ rest)
            ∧ clear fence body (fence ++ rest).
Proof.
  unfold first_block.
  destruct (find opener s) as [i|] eqn:Fi; [|done].
  cbn [mbind option_bind].
  destruct (find fence (drop (i + length opener) s)) as [j|] eqn:Fj; [|done].
  cbn [mbind option_bind]. intros [= <-].
  apply find_Some in Fi as (Hi & Hle & Hmin).
  apply find_Some in Fj as (Hj & Hjle & Hjmin).
  set (inside := drop (i + length opener) s) in *.
  assert (drop i s = opener ++ inside) as Hs.
  { rewrite (starts_with_split _ _ Hi) at 1. unfold inside.
    by rewrite drop_drop. }
  assert (inside = take j inside ++ fence ++ drop (length fence) (drop j inside))
    as Hin.
  { rewrite <- (starts_with_split _ _ Hj). by rewrite take_drop. }
  exists (take i s), (drop (length fence) (drop j inside)).
  rewrite <- Hin, <- Hs, take_drop. split; [done|].
  assert (length (take i s) = i) as Hlen by (rewrite length_take; lia).
  split.
  - intros k Hk. rewrite take_drop. apply Hmin. lia.
  - intros k Hk. rewrite length_take in Hk. rewrite <- Hin. apply Hjmin. lia.
Qed.

Lemma first_block_None (opener s : list N) :
  first_block opener s = None ↔
  ¬ ∃ a body rest, s = a ++ opener ++ body ++ fence ++ rest.
Proof.
  split.
  - intros Hnone (a & body & rest & ->). revert Hnone. unfold first_block.
    destruct (find opener (a ++ opener ++ body ++ fence ++ rest))
      as [i|] eqn:Fi.
    + cbn [mbind option_bind].
      set (s := a ++ opener ++ body ++ fence ++ rest) in *.
      destruct (find fence (drop (i + length opener) s)) as [j|] eqn:Fj; [done|].
      intros _. apply find_Some in Fi as (Hi & Hle & Hmin).
      assert (i ≤ length a)%nat as Hia.
      { destruct (decide (i ≤ length a)%nat) as [|Hgt]; [done|].
        specialize (Hmin (length a) ltac:(lia)). unfold s in Hmin.
        by rewrite drop_app_length, starts_with_app in Hmin. }
      pose proof (proj1 (find_None _ _) Fj
                    (length a - i + length body)%nat) as Hno.
      rewrite drop_drop in Hno. unfold s in Hno.
      replace (i + length opener + (length a - i + length body))%nat
        with (length a + (length opener + length body))%nat in Hno by lia.
      rewrite <- !drop_drop, !drop_app_length in Hno.
      by rewrite starts_with_app in Hno.
    + intros _. apply (proj1 (find_None _ _)) with (j := length a) in Fi.
      by rewrite drop_app_length, starts_with_app in Fi.
  - intros Hno. destruct (first_block opener s) as [body|] eqn:E; [|done].
    destruct (first_block_inv _ _ _ E) as (a & rest & Hs & _). naive_solver.
Qed.

Lemma after_heading_inv (s t : list N) :
  after_heading s = Some t →
  ∃ a, s = a ++ explanation_heading ++ t
       ∧ clear explanation_heading a (explanation_heading ++ t).
Proof.
  unfold after_heading.
  destruct (find explanation_heading s) as [i|] eqn:Fi; [|done].
  cbn [mbind option_bind]. intros [= <-].
  apply find_Some in Fi as (Hi & Hle & Hmin).
  exists (take i s). rewrite <- drop_drop.
  change (drop _ (drop i s)) with (drop (length explanation_heading) (drop i s)).
  rewrite <- (starts_with_split _ _ Hi), take_drop.
  split; [done|]. intros k Hk. rewrite length_take in Hk.
  rewrite take_drop. apply Hmin. lia.
Qed.

(** ** The three entries of the extractor's dictionary *)

Lemma extract_erd_mermaid (response : list N) :
  extract_sections response !! "erd_mermaid"%string
  = Some (from_option strip [] (re_search mermaid_open at_fence response)).
Proof.
  unfold extract_sections.
  destruct (re_search mermaid_open at_fence response),
    (re_search sql_open at_fence response),
    (re_search explanation_heading at_section_end response);
    try destruct (5 <=? length (split fence response))%nat;
    by simplify_map_eq.
Qed.

Lemma extract_sql_queries (response : list N) :
  extract_sections response !! "sql_queries"%string
  = Some (from_option strip [] (re_search sql_open at_fence response)).
Proof.
  unfold extract_sections.
  destruct (re_search mermaid_open at_fence response),
    (re_search sql_open at_fence response),
    (re_search explanation_heading at_section_end response);
    try destruct (5 <=? length (split fence response))%nat;
    by simplify_map_eq.
Qed.

Lemma extract_explanation (response : list N) :
  extract_sections response !! "explanation"%string
  = Some (from_option strip (explanation_fallback response)
            (re_search explanation_heading at_section_end response)).
Proof.
  unfold extract_sections, explanation_fallback.
  destruct (re_search mermaid_open at_fence response),
    (re_search sql_open at_fence response),
    (re_search explanation_heading at_section_end response);
    try destruct (5 <=? length (split fence response))%nat;
    by simplify_map_eq.
Qed.

(** ** Keys of the extractor's dictionary *)

Lemma extract_sections_dom (response : list N) :
  dom (extract_sections response)
  = ({[ "erd_mermaid"; "sql_queries"; "explanation" ]} : gset string)%string.
Proof.
  unfold extract_sections.
  destruct (re_search mermaid_open at_fence response),
    (re_search sql_open at_fence response),
    (re_search explanation_heading at_section_end response);
    try destruct (5 <=? length (split fence response))%nat;
    rewrite ?dom_insert_L, ?dom_singleton_L, ?dom_empty_L; set_solver.
Qed.

Lemma missing_sections_nil (sections : gmap string (list N)) :
  missing_sections sections = [] ↔
  ∀ k v, sections !! k = Some v → falsy (strip v) = false.
Proof.
  unfold missing_sections. split.
  - intros Hnil%fmap_nil_inv k v Hkv. apply elem_of_map_to_list in Hkv.
    destruct (falsy (strip v)) eqn:E; [|done].
    assert ((k, v) ∈ @nil (string * list N)) as Hin; [|by apply elem_of_nil in Hin].
    rewrite <- Hnil. apply list_elem_of_In, filter_In. split; [by apply list_elem_of_In | done].
  - intros Hall.
    destruct (List.filter (λ kv : string * list N, falsy (strip kv.2))
                (map_to_list sections)) as [|[k v] l] eqn:E; [done|].
    assert (In (k, v) ((k, v) :: l)) as Hin by (by left).
    rewrite <- E in Hin. apply filter_In in Hin as [Hin Hf].
    apply list_elem_of_In, elem_of_map_to_list in Hin.
    simpl in Hf. rewrite (Hall _ _ Hin) in Hf. done.
Qed.

Section ServiceFacts.

Variable str_exc : exn → list N.
Variable generate : list N → http_reply (option (list N)).

(** On a non-empty completion the handler answers with the three entries
    of the extractor's dictionary, whether or not one of them is blank. *)
Lemma design_database_extracted (request : DatabaseRequest) (response : list N) :
  query_ollama str_exc generate
    (create_database_design_prompt (description request) (database_type request))
  = Return response →
  response ≠ [] →
  design_database str_exc generate request
  = Return {|
      erd_mermaid := from_option strip [] (re_search mermaid_open at_fence response);
      sql_queries := from_option strip [] (re_search sql_open at_fence response);
      explanation :=
        from_option strip (explanation_fallback response)
          (re_search explanation_heading at_section_end response)
    |}.
Proof.
  intros Hq Hne. unfold design_database. rewrite Hq.
  cbn [mbind outcome_bind].
  destruct response as [|c r]; [done|]. cbn [falsy].
  set (resp := c :: r).
  destruct (missing_sections (extract_sections resp)).
  - unfold DatabaseResponse_of.
    by rewrite extract_erd_mermaid, extract_sql_queries, extract_explanation.
  - unfold dict_get.
    by rewrite extract_erd_mermaid, extract_sql_queries, extract_explanation.
Qed.

(** The same answer in the words of the extraction rules: a field whose
    block or heading is not found is the empty string. *)
Lemma design_database_fields (request : DatabaseRequest) (response : list N) :
  query_ollama str_exc generate
    (create_database_design_prompt (description request) (database_type request))
  = Return response →
  response ≠ [] →
  design_database str_exc generate request
  = Return {|
      erd_mermaid := from_option strip [] (first_block mermaid_open response);
      sql_queries := from_option strip [] (first_block sql_open response);
      explanation :=
        from_option (strip ∘ up_to_next_heading) (explanation_fallback response)
          (after_heading response)
    |}.
Proof.
  intros Hq Hne. rewrite (design_database_extracted _ _ Hq Hne).
  rewrite !re_search_block, re_search_heading.
  by destruct (after_heading response).
Qed.

End ServiceFacts.

(** ** The prompt template *)

Lemma prompt_segments (d t : list N) :
  create_database_design_prompt d t
  = template_1 ++ d ++ template_2 ++ t ++ template_3 ++ t ++ template_4.
Proof. vm_compute. reflexivity. Qed.

Lemma occurrences_prompt (p d t : list N) (n1 n2 n3 n4 : nat) :
  count_lit p template_1 = Some n1 →
  count_lit p template_2 = Some n2 →
  count_lit p template_3 = Some n3 →
  occurrences p template_4 = n4 →
  straddle_free p template_2 = true →
  straddle_free p template_3 = true →
  straddle_free p template_4 = true →
  occurrences p (create_database_design_prompt d t)
  = (n1 + n2 + n3 + n4 + occurrences p d + 2 * occurrences p t)%nat.
Proof.
  intros H1 H2 H3 H4 S2 S3 S4. rewrite prompt_segments.
  rewrite (count_lit_app _ _ _ _ H1).
  rewrite occurrences_app by by apply straddle_free_spec.
  rewrite (count_lit_app _ _ _ _ H2).
  rewrite occurrences_app by by apply straddle_free_spec.
  rewrite (count_lit_app _ _ _ _ H3).
  rewrite occurrences_app
    by (rewrite <- (app_nil_r template_4); by apply straddle_free_spec).
  lia.
Qed.

(** ** The template-shaped completion *)

Lemma full_completion_segments (x y z : list N) :
  full_completion x y z
  = completion_1 ++ mermaid_open ++ x ++ nl ++ fence ++ completion_2
    ++ sql_open ++ y ++ nl ++ fence ++ completion_3
    ++ explanation_heading ++ z.
Proof. vm_compute. reflexivity. Qed.

Lemma clear_before_newline (p d r : list N) :
  contains p d = false → straddle_free p nl = true → clear p d (nl ++ r).
Proof.
  intros Hd Hs. apply clear_free; [done|]. by apply straddle_free_spec.
Qed.

Lemma clear_sql_open (a r : list N) : clear fence a r → clear sql_open a r.
Proof. apply (clear_longer fence (lit "sql" ++ nl)). Qed.

Lemma clear_heading (a r : list N) :
  clear explanation_title a r → clear explanation_heading a r.
Proof. apply clear_longer. Qed.

Ltac clear_literal := apply clear_lit; vm_compute; reflexivity.

Lemma full_completion_diagram (x y z : list N) :
  contains fence x = false →
  first_block mermaid_open (full_completion x y z) = Some (x ++ nl).
Proof.
  intros Hx. rewrite full_completion_segments.
  rewrite (app_assoc x nl). apply first_block_at; [clear_literal|].
  apply clear_app; [by apply clear_before_newline | clear_literal].
Qed.

Lemma full_completion_sql (x y z : list N) :
  contains fence x = false → contains fence y = false →
  first_block sql_open (full_completion x y z) = Some (y ++ nl).
Proof.
  intros Hx Hy. rewrite full_completion_segments.
  set (rest := completion_3 ++ explanation_heading ++ z).
  transitivity (first_block sql_open
    (((completion_1 ++ mermaid_open) ++ x ++ (nl ++ fence ++ completion_2))
     ++ sql_open ++ (y ++ nl) ++ fence ++ rest)).
  { f_equal. by rewrite <- !app_assoc. }
  apply first_block_at.
  - apply clear_app; [clear_literal|]. apply clear_app; [|clear_literal].
    apply clear_sql_open. rewrite <- !app_assoc. by apply clear_before_newline.
  - apply clear_app; [by apply clear_before_newline | clear_literal].
Qed.

Lemma full_completion_explanation (x y z : list N) :
  contains explanation_title x = false →
  contains explanation_title y = false →
  after_heading (full_completion x y z) = Some z.
Proof.
  intros Hx Hy. rewrite full_completion_segments.
  transitivity (after_heading
    (((completion_1 ++ mermaid_open) ++ x
      ++ (nl ++ fence ++ completion_2 ++ sql_open) ++ y
      ++ (nl ++ fence ++ completion_3))
     ++ explanation_heading ++ z)).
  { f_equal. by rewrite <- !app_assoc. }
  apply after_heading_at.
  apply clear_app; [clear_literal|]. apply clear_app.
  { apply clear_heading. rewrite <- !app_assoc. by apply clear_before_newline. }
  apply clear_app; [clear_literal|]. apply clear_app; [|clear_literal].
  apply clear_heading. rewrite <- !app_assoc. by apply clear_before_newline.
Qed.

(** ** Trimming, continued *)

Lemma lstrip_app_nonspace (l : list N) (c : N) (r : list N) :
  isspace c = false → lstrip (l ++ c :: r) = lstrip l ++ c :: r.
Proof.
  intros Hc. induction l as [|a l IH]; simpl.
  - by rewrite Hc.
  - by destruct (isspace a).
Qed.

Lemma lstrip_suffix (s : list N) : ∃ a, s = a ++ lstrip s.
Proof.
  induction s as [|c s [a IH]]; [by exists []|]. simpl.
  destruct (isspace c).
  - exists (c :: a). simpl. by f_equal.
  - by exists [].
Qed.

Lemma rstrip_prefix (s : list N) : ∃ b, s = rstrip s ++ b.
Proof.
  unfold rstrip. destruct (lstrip_suffix (rev s)) as [a Ha].
  exists (rev a). rewrite <- rev_app_distr, <- Ha. by rewrite rev_involutive.
Qed.

(** A trimmed text is a contiguous piece of the text it comes from. *)
Lemma strip_inside (s : list N) : ∃ a b, s = a ++ strip s ++ b.
Proof.
  unfold strip. destruct (lstrip_suffix s) as [a Ha].
  destruct (rstrip_prefix (lstrip s)) as [b Hb].
  exists a, b. by rewrite <- Hb.
Qed.

Lemma lstrip_idem (s : list N) : lstrip (lstrip s) = lstrip s.
Proof.
  induction s as [|c s IH]; [done|]. simpl.
  destruct (isspace c) eqn:E; [done|]. simpl. by rewrite E.
Qed.

Lemma rstrip_cons_nonspace (c : N) (t : list N) :
  isspace c = false → rstrip (c :: t) = c :: rstrip t.
Proof.
  intros Hc. unfold rstrip. simpl.
  rewrite (lstrip_app_nonspace _ _ [] Hc), rev_app_distr. done.
Qed.

Lemma lstrip_rstrip_lstrip (s : list N) :
  lstrip (rstrip (lstrip s)) = rstrip (lstrip s).
Proof.
  induction s as [|c s IH]; [done|]. simpl.
  destruct (isspace c) eqn:E; [done|].
  rewrite rstrip_cons_nonspace by done. simpl. by rewrite E.
Qed.

(** Trimming twice is trimming once. *)
Lemma strip_idem (s : list N) : strip (strip s) = strip s.
Proof.
  unfold strip. rewrite lstrip_rstrip_lstrip.
  unfold rstrip. by rewrite rev_involutive, lstrip_idem.
Qed.

Lemma rstrip_app_nonspace (x : list N) (e : N) :
  isspace e = false → rstrip (x ++ [e]) = x ++ [e].
Proof.
  intros He. unfold rstrip. rewrite rev_app_distr. simpl. rewrite He.
  simpl. by rewrite rev_involutive.
Qed.

(** A text that begins and ends with a character that is not white space
    is its own trim. *)
Lemma strip_nonspace_ends (c e : N) (m : list N) :
  isspace c = false → isspace e = false →
  strip (c :: m ++ [e]) = c :: m ++ [e].
Proof.
  intros Hc He. unfold strip. simpl. rewrite Hc.
  by apply (rstrip_app_nonspace (c :: m)).
Qed.

(** ** What [strip] cuts off *)

Lemma forallb_rev (f : N → bool) (l : list N) :
  forallb f (rev l) = forallb f l.
Proof.
  induction l as [|a l IH]; [done|]. simpl.
  rewrite forallb_app, IH. simpl. rewrite andb_true_r. apply andb_comm.
Qed.

Lemma lstrip_spaces (s : list N) :
  ∃ l, s = l ++ lstrip s ∧ forallb isspace l = true.
Proof.
  induction s as [|c s (l & Hs & Hl)]; [by exists []|]. simpl.
  destruct (isspace c) eqn:E.
  - exists (c :: l). simpl. rewrite E, Hl. split; [by f_equal | done].
  - by exists [].
Qed.

Lemma rstrip_spaces (s : list N) :
  ∃ r, s = rstrip s ++ r ∧ forallb isspace r = true.
Proof.
  unfold rstrip. destruct (lstrip_spaces (rev s)) as (l & Hs & Hl).
  exists (rev l). rewrite forallb_rev. split; [|done].
  rewrite <- rev_app_distr, <- Hs. by rewrite rev_involutive.
Qed.

Lemma lstrip_head (s : list N) (c : N) (t : list N) :
  lstrip s = c :: t → isspace c = false.
Proof.
  induction s as [|a s IH]; [done|]. simpl.
  destruct (isspace a) eqn:E; [done|]. by intros [= <- _].
Qed.

Lemma strip_ends (s : list N) :
  match strip s with
  | [] => True
  | c :: _ => isspace c = false ∧ isspace (List.last (strip s) c) = false
  end.
Proof.
  unfold strip. destruct (lstrip s) as [|c t] eqn:E; [done|].
  pose proof (lstrip_head _ _ _ E) as Hc.
  rewrite rstrip_cons_nonspace by done. split; [done|].
  rewrite <- (rstrip_cons_nonspace c t Hc). unfold rstrip.
  destruct (lstrip (rev (c :: t))) as [|e m] eqn:E'.
  - pose proof (rstrip_cons_nonspace c t Hc) as H. unfold rstrip in H.
    by rewrite E' in H.
  - simpl. rewrite last_last. by apply (lstrip_head _ _ _ E').
Qed.

(** [strip] cuts white space, and only white space, off both ends. *)
Lemma strip_is_trim (s : list N) : is_trim_of (strip s) s.
Proof.
  destruct (lstrip_spaces s) as (l & Hs & Hl).
  destruct (rstrip_spaces (lstrip s)) as (r & Hu & Hr).
  exists l, r. split; [|split; [done|split; [done|apply strip_ends]]].
  unfold strip. by rewrite <- Hu.
Qed.

(** ** What the two searches find, as decompositions of the text *)

Lemma first_block_spec (opener s : list N) :
  match first_block opener s with
  | Some body => is_first_block opener s body
  | None => ¬ has_block opener s
  end.
Proof.
  destruct (first_block opener s) as [body|] eqn:E.
  - by apply first_block_inv.
  - by apply first_block_None.
Qed.

Lemma up_to_next_heading_spec (t : list N) :
  ∃ rest, t = up_to_next_heading t ++ rest
          ∧ clear next_heading (up_to_next_heading t) rest
          ∧ (rest = [] ∨ starts_with next_heading rest = true).
Proof.
  unfold up_to_next_heading.
  destruct (find next_heading t) as [j|] eqn:F.
  - apply find_Some in F as (Hj & Hle & Hmin). exists (drop j t).
    split; [by rewrite take_drop|]. split; [|by right].
    intros i Hi. rewrite length_take in Hi. rewrite take_drop. apply Hmin. lia.
  - exists []. rewrite app_nil_r. split; [done|]. split; [|by left].
    intros i _. rewrite app_nil_r. by apply find_None.
Qed.

(** * Main results *)

(** ** The extractor *)

(** C10: [extract_sections] is total, and on every input, the empty
    string included, its result has exactly the three keys [erd_mermaid],
    [sql_queries] and [explanation], each bound to a string. *)
Theorem extract_sections_three_keys (response : list N) :
  dom (extract_sections response)
  = ({[ "erd_mermaid"; "sql_queries"; "explanation" ]} : gset string)%string
  ∧ ∃ d q e : list N,
      extract_sections response !! "erd_mermaid"%string = Some d
      ∧ extract_sections response !! "sql_queries"%string = Some q
      ∧ extract_sections response !! "explanation"%string = Some e.
Proof.
  split; [apply extract_sections_dom|].
  rewrite extract_erd_mermaid, extract_sql_queries, extract_explanation.
  by eexists _, _, _.
Qed.

(** C8, as amended: the diagram entry is the trimmed interior of the first
    block opened by the mermaid fence line, that is the fence, the tag and
    a line feed right after the tag, and closed by the first fence after
    it; it is empty when no occurrence of that fence line has a fence
    after it.  The SQL entry likewise for the sql fence line.  Trimmed
    means that white space, and nothing else, is cut off both ends. *)
Theorem extract_fenced_blocks (response : list N) :
  extract_sections response !! "erd_mermaid"%string
  = Some (from_option strip [] (first_block mermaid_open response))
  ∧ extract_sections response !! "sql_queries"%string
    = Some (from_option strip [] (first_block sql_open response))
  ∧ ∀ opener,
      match first_block opener response with
      | Some body =>
          is_first_block opener response body ∧ is_trim_of (strip body) body
      | None => ¬ has_block opener response
      end.
Proof.
  rewrite extract_erd_mermaid, extract_sql_queries, !re_search_block.
  split; [done|]. split; [done|]. intros opener.
  pose proof (first_block_spec opener response) as H.
  destruct (first_block opener response); [|done].
  split; [done | apply strip_is_trim].
Qed.

Lemma extract_fenced_blocks_witness :
  extract_sections padded_blocks_completion !! "erd_mermaid"%string
  = Some (lit "X")
  ∧ extract_sections padded_blocks_completion !! "sql_queries"%string
    = Some (lit "Y").
Proof.
  exact (conj (proj1 (extract_fenced_blocks padded_blocks_completion))
              (proj1 (proj2 (extract_fenced_blocks padded_blocks_completion)))).
Defined.

(** C8, as stated, fails when the tag is not followed at once by a line
    feed: a block tagged mermaid whose tag is followed by a space, and a
    block tagged sql whose lines end with a carriage return and a line
    feed, have the trimmed interiors [X] and [Y], yet both entries are
    empty. *)
Lemma tagged_block_without_line_feed :
  tagged_block_interior mermaid_tag spaced_tag_completion = Some (lit "X")
  ∧ extract_sections spaced_tag_completion !! "erd_mermaid"%string = Some []
  ∧ extract_sections spaced_tag_completion !! "erd_mermaid"%string
    ≠ tagged_block_interior mermaid_tag spaced_tag_completion
  ∧ tagged_block_interior sql_tag crlf_block_completion = Some (lit "Y")
  ∧ extract_sections crlf_block_completion !! "sql_queries"%string = Some []
  ∧ extract_sections crlf_block_completion !! "sql_queries"%string
    ≠ tagged_block_interior sql_tag crlf_block_completion.
Proof. by vm_compute. Qed.

(** C7, as amended: when the completion contains the explanation heading
    immediately followed by a line feed, the explanation entry is the
    trimmed text that runs from just after the first such line feed up to
    the first later line feed that is immediately followed by [##], or
    to the end of the text when there is none.  So a deeper heading such
    as [###] also ends the explanation, while a [##] line that stands
    directly after the heading line does not.  Trimmed means that white
    space, and nothing else, is cut off both ends. *)
Theorem explanation_after_heading (response : list N) :
  contains explanation_heading response = true →
  ∃ t,
    after_heading response = Some t
    ∧ extract_sections response !! "explanation"%string
      = Some (strip (up_to_next_heading t))
    ∧ (∃ a, response = a ++ explanation_heading ++ t
            ∧ clear explanation_heading a (explanation_heading ++ t))
    ∧ (∃ rest, t = up_to_next_heading t ++ rest
               ∧ clear next_heading (up_to_next_heading t) rest
               ∧ (rest = [] ∨ starts_with next_heading rest = true))
    ∧ is_trim_of (strip (up_to_next_heading t)) (up_to_next_heading t).
Proof.
  intros Hin. rewrite extract_explanation, re_search_heading.
  destruct (after_heading response) as [t|] eqn:E.
  - exists t. split; [done|]. split; [done|].
    split; [by apply after_heading_inv|].
    split; [apply up_to_next_heading_spec | apply strip_is_trim].
  - unfold after_heading, contains in *.
    by destruct (find explanation_heading response).
Qed.

Lemma explanation_after_heading_witness :
  contains explanation_heading padded_explanation_completion = true
  ∧ extract_sections padded_explanation_completion !! "explanation"%string
    = Some (lit "A").
Proof.
  split; [reflexivity|].
  destruct (explanation_after_heading padded_explanation_completion eq_refl)
    as (t & Ht & Hv & _).
  vm_compute in Ht. injection Ht as <-. exact Hv.
Defined.

(** C7, as stated, fails on three kinds of completion that contain the
    heading.  With a deeper sub-heading the entry stops at the [###]
    line, although no heading of the same level follows.  With a heading
    of the same level directly after the heading line the entry runs
    through it.  With a carriage return between the heading and the line
    feed the entry is empty, although text follows the heading. *)
Lemma explanation_rule_counterexamples :
  (contains explanation_title nested_heading_completion = true
   ∧ explanation_to_same_level_heading nested_heading_completion
     = Some (lit "A" ++ nl ++ lit "### B")
   ∧ extract_sections nested_heading_completion !! "explanation"%string
     = Some (lit "A"))
  ∧ (contains explanation_title adjacent_heading_completion = true
     ∧ explanation_to_same_level_heading adjacent_heading_completion = Some []
     ∧ extract_sections adjacent_heading_completion !! "explanation"%string
       = Some (lit "## Next" ++ nl ++ lit "B"))
  ∧ (contains explanation_title crlf_heading_completion = true
     ∧ explanation_to_same_level_heading crlf_heading_completion
       = Some (lit "Z")
     ∧ extract_sections crlf_heading_completion !! "explanation"%string
       = Some [])
  ∧ extract_sections nested_heading_completion !! "explanation"%string
    ≠ explanation_to_same_level_heading nested_heading_completion
  ∧ extract_sections adjacent_heading_completion !! "explanation"%string
    ≠ explanation_to_same_level_heading adjacent_heading_completion
  ∧ extract_sections crlf_heading_completion !! "explanation"%string
    ≠ explanation_to_same_level_heading crlf_heading_completion.
Proof. by vm_compute. Qed.

(** C6: when the explanation heading line is absent, the explanation
    entry is the trimmed last part of the split on the fence if the split
    has at least five parts, and that part is then the text after a fence
    and holds no fence itself; the entry is empty if the split has fewer
    than five parts. *)
Theorem explanation_positional_fallback (response : list N) :
  contains explanation_heading response = false →
  let parts := split fence response in
  ((5 ≤ length parts)%nat →
     extract_sections response !! "explanation"%string
     = Some (strip (last_part parts))
     ∧ ∃ before, response = before ++ fence ++ last_part parts
                 ∧ contains fence (last_part parts) = false)
  ∧ ((length parts < 5)%nat →
     extract_sections response !! "explanation"%string = Some []).
Proof.
  intros Habs parts.
  assert (extract_sections response !! "explanation"%string
          = Some (explanation_fallback response)) as ->.
  { rewrite extract_explanation, re_search_heading.
    unfold after_heading, contains in *.
    by destruct (find explanation_heading response). }
  unfold explanation_fallback. fold parts. split; intros Hlen.
  - destruct (Nat.leb_spec 5 (length parts)); [|lia].
    split; [done|]. apply split_last_part; [done | unfold parts in *; lia].
  - by destruct (Nat.leb_spec 5 (length parts)); [lia|].
Qed.

Lemma explanation_positional_fallback_witness :
  contains explanation_heading (lit "a```b```c```d```  tail ") = false
  ∧ (5 ≤ length (split fence (lit "a```b```c```d```  tail ")))%nat
  ∧ extract_sections (lit "a```b```c```d```  tail ") !! "explanation"%string
    = Some (lit "tail").
Proof.
  split; [reflexivity|].
  assert (5 ≤ length (split fence (lit "a```b```c```d```  tail ")))%nat as Hlen
    by (vm_compute; lia).
  split; [exact Hlen|].
  exact (proj1 (proj1
    (explanation_positional_fallback (lit "a```b```c```d```  tail ") eq_refl)
    Hlen)).
Defined.

(** C4: on a completion that follows the template, with block interiors
    [x] and [y] and explanation [z] that are trimmed, hold no fence and no
    explanation heading ([x], [y]) and no later heading line ([z]), the
    extractor returns exactly [x], [y] and [z]. *)
Theorem extract_sections_round_trip (x y z : list N) :
  contains fence x = false → contains fence y = false →
  contains explanation_title x = false → contains explanation_title y = false →
  contains next_heading z = false →
  strip x = x → strip y = y → strip z = z →
  extract_sections (full_completion x y z) !! "erd_mermaid"%string = Some x
  ∧ extract_sections (full_completion x y z) !! "sql_queries"%string = Some y
  ∧ extract_sections (full_completion x y z) !! "explanation"%string = Some z.
Proof.
  intros Hfx Hfy Htx Hty Hz Sx Sy Sz.
  rewrite extract_erd_mermaid, extract_sql_queries, extract_explanation.
  rewrite !re_search_block, re_search_heading.
  rewrite full_completion_diagram, full_completion_sql,
    full_completion_explanation by done.
  cbn [from_option fmap option_fmap option_map].
  rewrite up_to_next_heading_all by done. unfold nl.
  by rewrite !strip_app_space, Sz.
Qed.

Lemma extract_sections_round_trip_witness :
  extract_sections (full_completion (lit "X") (lit "Y") (lit "Z")) !! "erd_mermaid"%string
  = Some (lit "X")
  ∧ extract_sections (full_completion (lit "X") (lit "Y") (lit "Z")) !! "sql_queries"%string
    = Some (lit "Y")
  ∧ extract_sections (full_completion (lit "X") (lit "Y") (lit "Z")) !! "explanation"%string
    = Some (lit "Z").
Proof.
  exact (extract_sections_round_trip (lit "X") (lit "Y") (lit "Z")
           eq_refl eq_refl eq_refl eq_refl eq_refl eq_refl eq_refl eq_refl).
Defined.

(** The same through the handler: the answer carries [x], [y] and [z]. *)
Corollary design_database_round_trip
    (str_exc : exn → list N) (request : DatabaseRequest) (x y z : list N) :
  contains fence x = false → contains fence y = false →
  contains explanation_title x = false → contains explanation_title y = false →
  contains next_heading z = false →
  strip x = x → strip y = y → strip z = z →
  design_database str_exc (answering (full_completion x y z)) request
  = Return {| erd_mermaid := x; sql_queries := y; explanation := z |}.
Proof.
  intros Hfx Hfy Htx Hty Hz Sx Sy Sz.
  rewrite (design_database_extracted _ _ _ (full_completion x y z));
    [|done|by rewrite full_completion_segments].
  rewrite !re_search_block, re_search_heading.
  rewrite full_completion_diagram, full_completion_sql,
    full_completion_explanation by done.
  cbn [from_option fmap option_fmap option_map].
  rewrite up_to_next_heading_all by done. unfold nl.
  by rewrite !strip_app_space, Sz.
Qed.

(** ** The prompt builder *)

(** C5, as amended: the prompt contains the description and the dialect
    verbatim; each of the two fence tags and the explanation heading
    occurs in it once for the template, once more for each occurrence in
    the description and twice more for each occurrence in the dialect;
    so exactly once when neither input contains it. *)
Theorem prompt_contains_inputs_and_markers
    (description db_type : list N) (m : marker) :
  let prompt := create_database_design_prompt description db_type in
  contains description prompt = true
  ∧ contains db_type prompt = true
  ∧ occurrences (marker_text m) prompt
    = (1 + occurrences (marker_text m) description
       + 2 * occurrences (marker_text m) db_type)%nat
  ∧ (contains (marker_text m) description = false →
     contains (marker_text m) db_type = false →
     occurrences (marker_text m) prompt = 1%nat).
Proof.
  intros prompt.
  assert (occurrences (marker_text m) prompt
          = (1 + occurrences (marker_text m) description
             + 2 * occurrences (marker_text m) db_type)%nat) as Hocc.
  { unfold prompt. destruct m; by rewrite (occurrences_prompt _ _ _ 0 0 1 0). }
  assert (marker_text m ≠ []) as Hne by by destruct m.
  split_and!.
  - apply contains_true. unfold prompt. rewrite prompt_segments. eauto.
  - apply contains_true. unfold prompt. rewrite prompt_segments.
    exists (template_1 ++ description ++ template_2). eexists.
    by rewrite <- !app_assoc.
  - done.
  - intros Hd Ht. apply occurrences_0 in Hd, Ht; [|done..]. lia.
Qed.

Lemma prompt_contains_inputs_and_markers_witness :
  contains sql_tag (description blog_request) = false
  ∧ contains sql_tag (database_type blog_request) = false
  ∧ occurrences sql_tag
      (create_database_design_prompt (description blog_request)
         (database_type blog_request)) = 1%nat.
Proof.
  split; [reflexivity|]. split; [reflexivity|].
  exact (proj2 (proj2 (proj2
    (prompt_contains_inputs_and_markers (description blog_request)
       (database_type blog_request) SqlTag))) eq_refl eq_refl).
Defined.

(** C5, as stated, fails when the description itself holds a fence tag:
    the tag then occurs twice in the prompt. *)
Lemma prompt_repeats_marker_of_description :
  lit "```sql" ≠ [] ∧ lit "MySQL" ≠ []
  ∧ occurrences sql_tag (create_database_design_prompt (lit "```sql") (lit "MySQL"))
    = 2%nat
  ∧ occurrences sql_tag (create_database_design_prompt (lit "```sql") (lit "MySQL"))
    ≠ 1%nat.
Proof. by vm_compute. Qed.

(** ** The handlers *)

Section ServiceClaims.

Variable str_exc : exn → list N.

(** C3: when the backend returns the empty completion, [design_database]
    raises an HTTP 500 error that carries the empty-response error; it does
    not return a response. *)
Theorem design_database_empty_completion
    (generate : list N → http_reply (option (list N))) (request : DatabaseRequest) :
  query_ollama str_exc generate
    (create_database_design_prompt (description request) (database_type request))
  = Return [] →
  design_database str_exc generate request
  = Raise (HTTPException 500
             (lit "Error generating database design: "
              ++ str_exc (HTTPException 500 (lit "Empty response from LLM")))).
Proof.
  intros Hq. unfold design_database. by rewrite Hq.
Qed.

(** C1, on a completion with a diagram block and the explanation heading
    but no SQL block: the answer holds the empty string in the SQL field,
    not the text given as fallback to [sections.get]. *)
Theorem missing_sql_block_yields_empty_field (request : DatabaseRequest) :
  first_block sql_open diagram_only_completion = None
  ∧ design_database str_exc (answering diagram_only_completion) request
    = Return {| erd_mermaid := lit "X"; sql_queries := [];
                explanation := lit "Z" |}.
Proof.
  split; [reflexivity|].
  by rewrite (design_database_extracted _ _ _ diagram_only_completion).
Qed.

(** C2, on plain prose (no fence, no heading, a single part in the
    split): the answer holds the empty string in the explanation field,
    as in the two others, not the completion. *)
Theorem plain_prose_yields_empty_explanation (request : DatabaseRequest) :
  plain_prose ≠ []
  ∧ contains fence plain_prose = false
  ∧ contains explanation_heading plain_prose = false
  ∧ length (split fence plain_prose) = 1%nat
  ∧ design_database str_exc (answering plain_prose) request
    = Return {| erd_mermaid := []; sql_queries := []; explanation := [] |}.
Proof.
  split_and!; [done | reflexivity | reflexivity | reflexivity |].
  by rewrite (design_database_extracted _ _ _ plain_prose).
Qed.

End ServiceClaims.

Lemma design_database_empty_completion_witness :
  query_ollama (λ _, []) (answering [])
    (create_database_design_prompt (description blog_request)
       (database_type blog_request))
  = Return []
  ∧ design_database (λ _, []) (answering []) blog_request
    = Raise (HTTPException 500 (lit "Error generating database design: ")).
Proof.
  split; [reflexivity|].
  exact (design_database_empty_completion (λ _, []) (answering []) blog_request eq_refl).
Defined.

(** C9: when the model-listing query gets no answer or an error status,
    [get_available_models] returns the payload with the [error] entry; it
    raises nothing. *)
Theorem get_available_models_unavailable
    (tags : http_reply (option (list (gmap string (list N))))) :
  listing_failed tags = true →
  get_available_models tags
  = Return (error (lit "Could not connect to Ollama. Make sure it's running.")).
Proof.
  unfold get_available_models, raise_for_status.
  destruct tags as [msg|status_code body]; simpl; [done|].
  by intros ->.
Qed.

Lemma get_available_models_unavailable_witness :
  listing_failed (@NoAnswer (option (list (gmap string (list N)))) (lit "Connection refused")) = true
  ∧ get_available_models (NoAnswer (lit "Connection refused"))
    = Return (error (lit "Could not connect to Ollama. Make sure it's running.")).
Proof.
  split; [reflexivity|].
  exact (get_available_models_unavailable (NoAnswer (lit "Connection refused")) eq_refl).
Defined.

(** * Further properties *)

(** ** Pieces of a text *)

Lemma contains_inside (p v s a b : list N) :
  s = a ++ v ++ b → contains p v = true → contains p s = true.
Proof.
  intros -> (x & y & ->)%contains_true. apply contains_true.
  exists (a ++ x), (y ++ b). by rewrite <- !app_assoc.
Qed.

Lemma contains_outside (p v s a b : list N) :
  s = a ++ v ++ b → contains p s = false → contains p v = false.
Proof.
  intros Hs Hp. destruct (contains p v) eqn:E; [|done].
  by rewrite (contains_inside _ _ _ _ _ Hs E) in Hp.
Qed.

Lemma contains_strip (p s : list N) :
  contains p s = false → contains p (strip s) = false.
Proof.
  destruct (strip_inside s) as (a & b & Hs). by apply (contains_outside _ _ _ a b).
Qed.

Lemma contains_piece (v s w a b a' b' : list N) :
  s = a ++ w ++ b → w = a' ++ v ++ b' → contains v s = true.
Proof.
  intros -> ->. apply contains_true. exists (a ++ a'), (b' ++ b).
  by rewrite <- !app_assoc.
Qed.

Lemma contains_nil (s : list N) : contains [] s = true.
Proof. by destruct s. Qed.

Lemma contains_longer (q e s : list N) :
  contains q s = false → contains (q ++ e) s = false.
Proof.
  rewrite !contains_false. intros H j. specialize (H j).
  destruct (starts_with (q ++ e) (drop j s)) eqn:E; [|done].
  apply starts_with_longer in E. congruence.
Qed.

Lemma contains_clear (p a r : list N) :
  clear p a r → contains p r = false → contains p (a ++ r) = false.
Proof.
  intros Ha Hr. unfold contains in *. rewrite (find_clear _ _ _ Ha).
  by destruct (find p r).
Qed.

Lemma up_to_next_heading_free (t : list N) :
  contains next_heading (up_to_next_heading t) = false.
Proof.
  unfold up_to_next_heading.
  destruct (find next_heading t) as [j|] eqn:F.
  - apply find_Some in F as (_ & Hle & Hmin). apply contains_false. intros k.
    destruct (decide (k < j)%nat) as [Hlt|Hge].
    + destruct (starts_with next_heading (drop k (take j t))) eqn:E; [|done].
      apply starts_with_app_l with (r := drop j t) in E.
      rewrite <- drop_app_le, take_drop in E by (rewrite length_take; lia).
      by rewrite Hmin in E.
    + by rewrite drop_ge by (rewrite length_take; lia).
  - unfold contains. by rewrite F.
Qed.

Lemma up_to_next_heading_prefix (t : list N) :
  ∃ b, t = up_to_next_heading t ++ b.
Proof.
  unfold up_to_next_heading. destruct (find next_heading t) as [j|].
  - exists (drop j t). by rewrite take_drop.
  - exists []. by rewrite app_nil_r.
Qed.

Lemma split_go_free (sep : list N) (s cur : list N) :
  sep ≠ [] → clear sep (rev cur) s → contains sep s = false →
  split_go sep 0 cur s = [rev cur ++ s].
Proof.
  intros Hsep. revert cur. induction s as [|c s IH]; intros cur Hc Hs.
  - simpl. by rewrite app_nil_r.
  - rewrite split_go_cons by done.
    pose proof (proj1 (contains_false _ _) Hs 0%nat) as H0. simpl in H0.
    rewrite H0. rewrite IH.
    + simpl. by rewrite <- app_assoc.
    + simpl. apply clear_app; [done|]. intros [|i] Hi; [done | simpl in Hi; lia].
    + apply contains_false. intros j.
      apply (proj1 (contains_false _ _) Hs (S j)).
Qed.

(** A text without the separator is the only part of its split. *)
Lemma split_free (sep s : list N) :
  sep ≠ [] → contains sep s = false → split sep s = [s].
Proof.
  intros Hsep Hs. unfold split. rewrite split_go_free; try done.
  intros i Hi. simpl in Hi. lia.
Qed.

(** ** What the extractor's entries hold *)

Lemma extract_sections_key (response : list N) (key : string) (v : list N) :
  extract_sections response !! key = Some v →
  key = "erd_mermaid"%string ∨ key = "sql_queries"%string
  ∨ key = "explanation"%string.
Proof.
  intros Hv.
  assert (key ∈ dom (extract_sections response)) as Hin
    by (apply elem_of_dom; eauto).
  rewrite extract_sections_dom in Hin. set_unfold in Hin. tauto.
Qed.

Lemma first_block_free (opener s body : list N) :
  first_block opener s = Some body → contains fence body = false.
Proof.
  intros (a & rest & _ & _ & Hb)%first_block_inv.
  by apply (clear_contains _ _ (fence ++ rest)).
Qed.

Lemma first_block_piece (opener s body : list N) :
  first_block opener s = Some body → contains (strip body) s = true.
Proof.
  intros (a & rest & Hs & _)%first_block_inv.
  destruct (strip_inside body) as (a' & b' & Hb).
  apply (contains_piece _ _ body (a ++ opener) (fence ++ rest) a' b'); [|done].
  rewrite Hs. by rewrite <- !app_assoc.
Qed.

Lemma explanation_fallback_free (response : list N) :
  contains fence (explanation_fallback response) = false.
Proof.
  unfold explanation_fallback.
  destruct (Nat.leb_spec 5 (length (split fence response))); [|done].
  apply contains_strip.
  destruct (split_last_part fence response) as (u & _ & Hfree); [done | lia | done].
Qed.

Lemma explanation_fallback_piece (response : list N) :
  contains (explanation_fallback response) response = true.
Proof.
  unfold explanation_fallback.
  destruct (Nat.leb_spec 5 (length (split fence response)));
    [|apply contains_nil].
  destruct (split_last_part fence response) as (u & Hs & _); [done | lia |].
  destruct (strip_inside (last_part (split fence response))) as (a' & b' & Hb).
  apply (contains_piece _ _ (last_part (split fence response))
           (u ++ fence) [] a' b'); [|done].
  rewrite app_nil_r, <- app_assoc. exact Hs.
Qed.

Lemma first_block_absent (opener s : list N) :
  contains opener s = false → first_block opener s = None.
Proof.
  unfold contains, first_block. by destruct (find opener s).
Qed.

Lemma extract_sections_entry_trimmed (response : list N) (key : string) (v : list N) :
  extract_sections response !! key = Some v → strip v = v.
Proof.
  intros Hv.
  destruct (extract_sections_key _ _ _ Hv) as [->|[->| ->]].
  - rewrite extract_erd_mermaid in Hv. injection Hv as <-.
    destruct (re_search mermaid_open at_fence response); [apply strip_idem | done].
  - rewrite extract_sql_queries in Hv. injection Hv as <-.
    destruct (re_search sql_open at_fence response); [apply strip_idem | done].
  - rewrite extract_explanation in Hv. injection Hv as <-.
    destruct (re_search explanation_heading at_section_end response);
      [apply strip_idem|].
    unfold explanation_fallback.
    destruct (5 <=? length (split fence response))%nat; [apply strip_idem | done].
Qed.

(** X6: every entry of the extractor's dictionary is trimmed: trimming it
    again changes nothing. *)
Theorem extract_sections_trimmed (response : list N) (key : string) (v : list N) :
  extract_sections response !! key = Some v → strip v = v.
Proof. apply extract_sections_entry_trimmed. Qed.

Lemma extract_sections_trimmed_witness :
  extract_sections diagram_only_completion !! "erd_mermaid"%string = Some (lit "X")
  ∧ strip (lit "X") = lit "X".
Proof.
  split; [reflexivity|].
  exact (extract_sections_trimmed diagram_only_completion "erd_mermaid" (lit "X")
           eq_refl).
Defined.

(** X7: every entry of the extractor's dictionary is a contiguous piece
    of the completion: the extractor copies text, it never makes any. *)
Theorem extract_sections_copies (response : list N) (key : string) (v : list N) :
  extract_sections response !! key = Some v → contains v response = true.
Proof.
  intros Hv.
  destruct (extract_sections_key _ _ _ Hv) as [->|[->| ->]].
  - rewrite extract_erd_mermaid, re_search_block in Hv. injection Hv as <-.
    destruct (first_block mermaid_open response) eqn:E;
      [by apply (first_block_piece mermaid_open) | apply contains_nil].
  - rewrite extract_sql_queries, re_search_block in Hv. injection Hv as <-.
    destruct (first_block sql_open response) eqn:E;
      [by apply (first_block_piece sql_open) | apply contains_nil].
  - rewrite extract_explanation, re_search_heading in Hv. injection Hv as <-.
    destruct (after_heading response) as [t|] eqn:E;
      [|apply explanation_fallback_piece].
    apply after_heading_inv in E as (a & Hs & _).
    destruct (up_to_next_heading_prefix t) as [b Ht].
    destruct (strip_inside (up_to_next_heading t)) as (a' & b' & Hu).
    apply (contains_piece _ _ (up_to_next_heading t)
             (a ++ explanation_heading) b a' b'); [|done].
    rewrite Hs. rewrite <- app_assoc. by rewrite <- Ht.
Qed.

Lemma extract_sections_copies_witness :
  extract_sections diagram_only_completion !! "explanation"%string = Some (lit "Z")
  ∧ contains (lit "Z") diagram_only_completion = true.
Proof.
  split; [reflexivity|].
  exact (extract_sections_copies diagram_only_completion "explanation" (lit "Z")
           eq_refl).
Defined.

(** X8: the diagram and SQL entries never hold a fence. *)
Theorem extract_sections_blocks_hold_no_fence (response : list N) :
  ∃ d q : list N,
    extract_sections response !! "erd_mermaid"%string = Some d
    ∧ extract_sections response !! "sql_queries"%string = Some q
    ∧ contains fence d = false ∧ contains fence q = false.
Proof.
  eexists _, _. rewrite extract_erd_mermaid, extract_sql_queries.
  rewrite !re_search_block. split_and!; try done.
  - destruct (first_block mermaid_open response) eqn:E; [|done].
    apply contains_strip. by apply (first_block_free mermaid_open response).
  - destruct (first_block sql_open response) eqn:E; [|done].
    apply contains_strip. by apply (first_block_free sql_open response).
Qed.

(** X9: an explanation read under the heading line holds no line feed
    that is immediately followed by [##] (its first line may begin with
    [##]); an explanation read by the positional fallback holds no
    fence. *)
Theorem extract_sections_explanation_stops (response : list N) :
  ∃ e : list N,
    extract_sections response !! "explanation"%string = Some e
    ∧ if contains explanation_heading response
      then contains next_heading e = false
      else contains fence e = false.
Proof.
  eexists. rewrite extract_explanation, re_search_heading. split; [done|].
  unfold after_heading, contains at 1.
  destruct (find explanation_heading response); simpl.
  - apply contains_strip, up_to_next_heading_free.
  - apply explanation_fallback_free.
Qed.

(** X10: a completion with no fence and no explanation heading line
    yields three empty entries. *)
Theorem extract_sections_plain_text (response : list N) :
  contains fence response = false →
  contains explanation_heading response = false →
  extract_sections response !! "erd_mermaid"%string = Some []
  ∧ extract_sections response !! "sql_queries"%string = Some []
  ∧ extract_sections response !! "explanation"%string = Some [].
Proof.
  intros Hf Hh.
  rewrite extract_erd_mermaid, extract_sql_queries, extract_explanation.
  rewrite !re_search_block, re_search_heading.
  rewrite (first_block_absent mermaid_open)
    by apply (contains_longer fence (lit "mermaid" ++ nl)), Hf.
  rewrite (first_block_absent sql_open)
    by apply (contains_longer fence (lit "sql" ++ nl)), Hf.
  unfold after_heading, contains in *.
  destruct (find explanation_heading response); [done|].
  unfold explanation_fallback. fold (contains fence response) in Hf.
  by rewrite split_free.
Qed.

Lemma extract_sections_plain_text_witness :
  contains fence plain_prose = false
  ∧ contains explanation_heading plain_prose = false
  ∧ extract_sections plain_prose !! "explanation"%string = Some [].
Proof.
  split; [reflexivity|]. split; [reflexivity|].
  exact (proj2 (proj2 (extract_sections_plain_text plain_prose eq_refl eq_refl))).
Defined.

(** ** The handlers, continued *)

Section HandlerFacts.

Variable str_exc : exn → list N.
Variable generate : list N → http_reply (option (list N)).

(** X2: an answer of the backend without a [response] entry counts as an
    empty completion: [design_database] raises the empty-response error. *)
Theorem design_database_missing_response_entry
    (request : DatabaseRequest) (status_code : N) :
  generate (create_database_design_prompt (description request)
              (database_type request))
  = Answered status_code None →
  is_error_status status_code = false →
  design_database str_exc generate request
  = Raise (HTTPException 500
             (lit "Error generating database design: "
              ++ str_exc (HTTPException 500 (lit "Empty response from LLM")))).
Proof.
  intros Hg Hs. unfold design_database, query_ollama, raise_for_status.
  rewrite Hg, Hs. done.
Qed.

(** X3: when the backend gives no answer or an error status,
    [design_database] raises an HTTP 500 whose detail wraps the HTTP 500
    of [query_ollama], which wraps the request exception. *)
Theorem design_database_backend_failure (request : DatabaseRequest) :
  listing_failed
    (generate (create_database_design_prompt (description request)
                 (database_type request))) = true →
  ∃ e, is_request_exception e = true
       ∧ design_database str_exc generate request
         = Raise (HTTPException 500
                    (lit "Error generating database design: "
                     ++ str_exc
                          (HTTPException 500
                             (lit "Error communicating with Ollama: "
                              ++ str_exc e)))).
Proof.
  unfold design_database, query_ollama, raise_for_status.
  destruct (generate _) as [msg|status_code body]; simpl.
  - intros _. by exists (RequestException msg).
  - intros ->. by exists (HTTPError status_code).
Qed.

(** X4: whatever the backend does, [design_database] either returns a
    response or raises an HTTP 500 whose detail begins with its own
    prefix; no other exception leaves the handler. *)
Theorem design_database_raises_only_500 (request : DatabaseRequest) :
  (∃ r, design_database str_exc generate request = Return r)
  ∨ (∃ detail,
       design_database str_exc generate request
       = Raise (HTTPException 500
                  (lit "Error generating database design: " ++ detail))).
Proof.
  unfold design_database.
  destruct (query_ollama str_exc generate _) as [response|e]; simpl.
  - destruct response as [|c response]; simpl; [by right; eexists|].
    left. destruct (missing_sections _); [|by eexists].
    unfold DatabaseResponse_of.
    rewrite extract_erd_mermaid, extract_sql_queries, extract_explanation.
    by eexists.
  - right. by eexists.
Qed.

(** X5: [design_database] returns a response exactly when the backend
    answers with a success status and a non-empty completion, and the
    response then holds the three extracted texts, blank or not. *)
Theorem design_database_returns_iff
    (request : DatabaseRequest) (r : DatabaseResponse) :
  design_database str_exc generate request = Return r ↔
  ∃ status_code text,
    generate (create_database_design_prompt (description request)
                (database_type request))
    = Answered status_code (Some text)
    ∧ is_error_status status_code = false
    ∧ text ≠ []
    ∧ r = {|
        erd_mermaid := from_option strip [] (first_block mermaid_open text);
        sql_queries := from_option strip [] (first_block sql_open text);
        explanation :=
          from_option (strip ∘ up_to_next_heading) (explanation_fallback text)
            (after_heading text)
      |}.
Proof.
  split.
  - intros Hr. unfold design_database in Hr.
    destruct (query_ollama str_exc generate _) as [text|e] eqn:Hq;
      [|done].
    destruct text as [|c text]; [done|].
    pose proof (design_database_fields str_exc generate request _ Hq
                  ltac:(done)) as Hf.
    unfold design_database in Hf. rewrite Hq in Hf. rewrite Hf in Hr.
    injection Hr as <-.
    unfold query_ollama, raise_for_status in Hq.
    destruct (generate _) as [msg|status_code body]; [done|].
    destruct (is_error_status status_code) eqn:Hs; [done|].
    destruct body as [text'|]; [|done]. simpl in Hq. injection Hq as ->.
    by exists status_code, (c :: text).
  - intros (status_code & text & Hg & Hs & Hne & ->).
    apply design_database_fields; [|done].
    unfold query_ollama, raise_for_status. by rewrite Hg, Hs.
Qed.

End HandlerFacts.

Lemma design_database_missing_response_entry_witness :
  design_database (λ _, []) (λ _, Answered 200 None) blog_request
  = Raise (HTTPException 500 (lit "Error generating database design: ")).
Proof.
  exact (design_database_missing_response_entry (λ _, [])
           (λ _, Answered 200 None) blog_request 200 eq_refl eq_refl).
Defined.

Lemma design_database_backend_failure_witness :
  ∃ e, is_request_exception e = true
       ∧ design_database (λ _, []) (λ _, Answered 503 None) blog_request
         = Raise (HTTPException 500 (lit "Error generating database design: ")).
Proof.
  exact (design_database_backend_failure (λ _, [])
           (λ _, Answered 503 None) blog_request eq_refl).
Defined.

Lemma model_names_mapM (models : list (gmap string (list N))) :
  model_names models
  = match mapM (λ model, model !! "name"%string) models with
    | Some names => Return names
    | None => Raise (KeyError "name")
    end.
Proof.
  induction models as [|model models IH]; [done|].
  cbn [model_names mapM]. destruct (model !! "name"%string) as [name|]; [|done].
  rewrite IH. simpl.
  by destruct (mapM (λ model, model !! "name"%string) models).
Qed.

(** X11: when the backend answers with a success status and every listed
    model has a name, [get_available_models] returns these names, one for
    each model and in the order of the list; without a [models] entry it
    returns no name. *)
Theorem get_available_models_names
    (status_code : N) (body : option (list (gmap string (list N))))
    (names : list (list N)) :
  is_error_status status_code = false →
  Forall2 (λ model name, model !! "name"%string = Some name)
    (default [] body) names →
  get_available_models (Answered status_code body)
  = Return (available_models names).
Proof.
  intros Hs Hn. unfold get_available_models, raise_for_status.
  rewrite Hs. cbn [mbind outcome_bind]. rewrite model_names_mapM.
  assert (mapM (λ model : gmap string (list N), model !! "name"%string)
            (default [] body) = Some names) as ->
    by by apply mapM_Some_2.
  done.
Qed.

Lemma get_available_models_names_witness :
  get_available_models
    (Answered 200 (Some [named_model (lit "codellama:7b"); named_model (lit "llama3")]))
  = Return (available_models [lit "codellama:7b"; lit "llama3"]).
Proof.
  apply (get_available_models_names 200
           (Some [named_model (lit "codellama:7b"); named_model (lit "llama3")])
           [lit "codellama:7b"; lit "llama3"] eq_refl).
  repeat constructor.
Defined.



(** ** The review handler *)

Lemma validation_prompt_segments (requirements design : list N) :
  validation_prompt requirements design
  = review_1 ++ requirements ++ review_2 ++ design ++ review_3.
Proof. vm_compute. reflexivity. Qed.

(** X16: the review prompt holds the requirements and the design
    verbatim, the requirements first, inside a fixed text of 469
    characters. *)
Theorem validation_prompt_embeds (requirements design : list N) :
  (∃ before between after,
     validation_prompt requirements design
     = before ++ requirements ++ between ++ design ++ after
     ∧ validation_prompt [] [] = before ++ between ++ after)
  ∧ length (validation_prompt requirements design)
    = (469 + length requirements + length design)%nat.
Proof.
  split.
  - exists review_1, review_2, review_3. by rewrite validation_prompt_segments.
  - rewrite validation_prompt_segments, !length_app.
    change (length review_1) with 103%nat.
    change (length review_2) with 26%nat.
    change (length review_3) with 340%nat. lia.
Qed.

Section ValidationFacts.

Variable str_exc : exn → list N.
Variable generate : list N → http_reply (option (list N)).
Context {V : Type}.
Variable format : V → list N.

(** X17: whatever the backend does, [validate_design] either returns or
    raises an HTTP 500 whose detail begins with its own prefix. *)
Theorem validate_design_raises_only_500 (request : gmap string V) :
  (∃ p, validate_design str_exc generate format request = Return p)
  ∨ (∃ detail,
       validate_design str_exc generate format request
       = Raise (HTTPException 500 (lit "Error validating design: " ++ detail))).
Proof.
  unfold validate_design.
  destruct (query_ollama str_exc generate _); simpl;
    [left | right]; by eexists.
Qed.

(** X15: a request without an entry is reviewed like a request whose
    entry is rendered as the empty string. *)
Theorem validate_design_missing_entry
    (request : gmap string V) (key : string) (v : V) :
  format v = [] →
  validate_design str_exc generate format (<[key := v]> request)
  = validate_design str_exc generate format (delete key request).
Proof.
  intros Hv. unfold validate_design.
  destruct (decide (key = "design"%string)) as [Hd|Hd];
    destruct (decide (key = "requirements"%string)) as [Hr|Hr].
  - by subst key.
  - subst key. rewrite lookup_insert_eq, lookup_delete_eq.
    rewrite lookup_insert_ne, lookup_delete_ne by done. simpl. by rewrite Hv.
  - subst key. rewrite lookup_insert_eq, lookup_delete_eq.
    rewrite lookup_insert_ne, lookup_delete_ne by done. simpl. by rewrite Hv.
  - by rewrite !lookup_insert_ne, !lookup_delete_ne by done.
Qed.

End ValidationFacts.

Lemma validate_design_missing_entry_witness :
  validate_design (λ _, []) (answering (lit "fine")) id
    (<["design"%string := []]> ∅)
  = validate_design (λ _, []) (answering (lit "fine")) id
      (delete "design"%string ∅).
Proof.
  exact (validate_design_missing_entry (λ _, []) (answering (lit "fine")) id
           ∅ "design" [] eq_refl).
Defined.

(** ** The prompt read back by the extractor *)

Lemma prompt_echo_segments (d t : list N) :
  create_database_design_prompt d t
  = template_1 ++ d ++ template_2 ++ t ++ template_3_head ++ mermaid_open
    ++ (echo_diagram ++ nl) ++ fence ++ completion_2 ++ sql_open
    ++ (echo_sql ++ nl) ++ fence ++ completion_3 ++ explanation_heading
    ++ echo_instructions ++ t ++ template_4.
Proof. vm_compute. reflexivity. Qed.

Lemma clear_mermaid_open (a r : list N) :
  clear fence a r → clear mermaid_open a r.
Proof. apply (clear_longer fence (lit "mermaid" ++ nl)). Qed.

(** An unknown text free of [p], followed by known text that no rest of
    [p] can begin. *)
Lemma clear_before_literal (p d a r : list N) :
  contains p d = false → straddle_free p a = true → clear p d (a ++ r).
Proof.
  intros Hd Hs. apply clear_free; [done|]. by apply straddle_free_spec.
Qed.

Ltac clear_unknown :=
  rewrite <- ?app_assoc; apply clear_before_literal;
  [assumption | vm_compute; reflexivity].

(** Inside [l1 ++ d ++ l2 ++ t ++ l3], with [l1], [l2], [l3] known and [d],
    [t] unknown. *)
Lemma clear_two_holes (p l1 d l2 t l3 r : list N) :
  count_lit p l1 = Some 0%nat → count_lit p l2 = Some 0%nat →
  count_lit p l3 = Some 0%nat →
  clear p d (l2 ++ t ++ l3 ++ r) → clear p t (l3 ++ r) →
  clear p (l1 ++ d ++ l2 ++ t ++ l3) r.
Proof.
  intros H1 H2 H3 Hd Ht.
  apply clear_app; [by apply clear_lit|].
  apply clear_app; [by rewrite <- !app_assoc|].
  apply clear_app; [by apply clear_lit|].
  apply clear_app; [done | by apply clear_lit].
Qed.

Section Echo.

Variables d t : list N.
Hypothesis fence_d : contains fence d = false.
Hypothesis fence_t : contains fence t = false.
Hypothesis title_d : contains explanation_title d = false.
Hypothesis title_t : contains explanation_title t = false.
Hypothesis heading_t : contains next_heading t = false.

Lemma prompt_echo_diagram :
  first_block mermaid_open (create_database_design_prompt d t)
  = Some (echo_diagram ++ nl).
Proof.
  rewrite prompt_echo_segments.
  set (rest := completion_2 ++ _).
  transitivity (first_block mermaid_open
    ((template_1 ++ d ++ template_2 ++ t ++ template_3_head)
     ++ mermaid_open ++ (echo_diagram ++ nl) ++ fence ++ rest)).
  { f_equal. by rewrite <- !app_assoc. }
  apply first_block_at; [|clear_literal].
  apply clear_mermaid_open.
  apply clear_two_holes; try (vm_compute; reflexivity); clear_unknown.
Qed.

Lemma prompt_echo_sql :
  first_block sql_open (create_database_design_prompt d t)
  = Some (echo_sql ++ nl).
Proof.
  rewrite prompt_echo_segments.
  set (rest := completion_3 ++ _).
  transitivity (first_block sql_open
    ((template_1 ++ d ++ template_2 ++ t
      ++ (template_3_head ++ mermaid_open ++ (echo_diagram ++ nl) ++ fence
          ++ completion_2))
     ++ sql_open ++ (echo_sql ++ nl) ++ fence ++ rest)).
  { f_equal. by rewrite <- !app_assoc. }
  apply first_block_at; [|clear_literal].
  apply clear_two_holes; try (vm_compute; reflexivity);
    apply clear_sql_open; clear_unknown.
Qed.

Lemma prompt_echo_after_heading :
  after_heading (create_database_design_prompt d t)
  = Some (echo_explanation t).
Proof.
  rewrite prompt_echo_segments. unfold echo_explanation.
  transitivity (after_heading
    ((template_1 ++ d ++ template_2 ++ t
      ++ (template_3_head ++ mermaid_open ++ (echo_diagram ++ nl) ++ fence
          ++ completion_2 ++ sql_open ++ (echo_sql ++ nl) ++ fence
          ++ completion_3))
     ++ explanation_heading ++ echo_instructions ++ t ++ template_4)).
  { f_equal. by rewrite <- !app_assoc. }
  apply after_heading_at.
  apply clear_two_holes; try (vm_compute; reflexivity);
    apply clear_heading; clear_unknown.
Qed.

Lemma prompt_echo_no_later_heading :
  contains next_heading (echo_explanation t) = false.
Proof.
  unfold echo_explanation.
  apply contains_clear; [clear_literal|].
  apply contains_clear; [|reflexivity].
  rewrite <- (app_nil_r template_4). clear_unknown.
Qed.

End Echo.

Lemma strip_between (c e : N) (m1 t m2 : list N) :
  isspace c = false → isspace e = false →
  strip ((c :: m1) ++ t ++ m2 ++ [e]) = (c :: m1) ++ t ++ m2 ++ [e].
Proof.
  intros Hc He.
  replace ((c :: m1) ++ t ++ m2 ++ [e]) with (c :: (m1 ++ t ++ m2) ++ [e])
    by (simpl; by rewrite <- !app_assoc).
  by apply strip_nonspace_ends.
Qed.

Lemma strip_echo_explanation (t : list N) :
  strip (echo_explanation t) = echo_explanation t.
Proof.
  exact (strip_between 80 46 (tail echo_instructions) t (removelast template_4)
           eq_refl eq_refl).
Qed.

(** X18: when the backend echoes the prompt, and the description and the
    dialect hold no fence, no explanation heading and (the dialect) no
    line that begins with [##], [design_database] returns the sample
    blocks and the instructions of the template as a design. *)
Theorem design_database_echo (str_exc : exn → list N) (request : DatabaseRequest) :
  contains fence (description request) = false →
  contains fence (database_type request) = false →
  contains explanation_title (description request) = false →
  contains explanation_title (database_type request) = false →
  contains next_heading (database_type request) = false →
  design_database str_exc echoing request
  = Return {|
      erd_mermaid := echo_diagram;
      sql_queries := echo_sql;
      explanation := echo_explanation (database_type request)
    |}.
Proof.
  intros Hfd Hft Htd Htt Hnt.
  rewrite (design_database_fields _ _ _
             (create_database_design_prompt (description request)
                (database_type request)));
    [|done|by rewrite prompt_segments].
  rewrite prompt_echo_diagram, prompt_echo_sql, prompt_echo_after_heading
    by done.
  cbn [from_option compose]. unfold nl.
  rewrite !strip_app_space by done.
  rewrite up_to_next_heading_all by by apply prompt_echo_no_later_heading.
  by rewrite strip_echo_explanation.
Qed.

Lemma design_database_echo_witness :
  design_database (λ _, []) echoing blog_request
  = Return {|
      erd_mermaid := echo_diagram;
      sql_queries := echo_sql;
      explanation := echo_explanation (lit "MySQL")
    |}.
Proof.
  exact (design_database_echo (λ _, []) blog_request
           eq_refl eq_refl eq_refl eq_refl eq_refl).
Defined.

(** ** The handlers on answers of any JSON shape *)

Section JsonFacts.

Variable str_exc : exn → list N.
Context {J : Type}.
Variable generate : list N → http_reply (generate_body J).


Context {V : Type}.
Variable format : V → list N.


End JsonFacts.





(** On the answers of the expected shape the handlers of this section do
    what the handlers above do. *)
Lemma query_ollama_json_expected {J : Type} (str_exc : exn → list N)
    (generate : list N → http_reply (option (list N))) (prompt : list N) :
  query_ollama_json str_exc
    (λ p, reply_of (@generate_body_of J) (generate p)) prompt
  = outcome_of JString (query_ollama str_exc generate prompt).
Proof.
  unfold query_ollama_json, query_ollama, raise_for_status.
  destruct (generate prompt) as [msg|status_code body]; simpl; [done|].
  destruct (is_error_status status_code); simpl; [done|]. by destruct body.
Qed.

Lemma item_names_expected {J : Type} (models : list (gmap string (list N))) :
  item_names
    ((λ model : gmap string (list N),
        @ItemObject J (JString <$> model !! "name"%string)) <$> models)
  = outcome_of (fmap JString) (model_names models).
Proof.
  induction models as [|model models IH]; [done|].
  rewrite fmap_cons. cbn [item_names model_names].
  destruct (model !! "name"%string); cbn [fmap option_fmap option_map]; [|done].
  rewrite IH. by destruct (model_names models).
Qed.

Lemma get_available_models_json_expected {J : Type}
    (tags : http_reply (option (list (gmap string (list N))))) :
  get_available_models_json (reply_of (@tags_body_of J) tags)
  = outcome_of json_payload_of (get_available_models tags).
Proof.
  unfold get_available_models_json, get_available_models, raise_for_status.
  destruct tags as [msg|status_code body]; simpl; [done|].
  destruct (is_error_status status_code); simpl; [done|].
  destruct body as [models|]; [|done].
  cbn [tags_body_of reply_of fmap option_fmap option_map models_of default
       mbind outcome_bind entry_names id].
  rewrite item_names_expected.
  destruct (model_names models) as [names|[]]; reflexivity.
Qed.

(** ** The test for missing sections *)

(** X19: [design_database] finds no missing section exactly when none of
    the three extracted entries is the empty string. *)
Theorem missing_sections_of_extract (response : list N) :
  missing_sections (extract_sections response) = [] ↔
  ∀ key v, extract_sections response !! key = Some v → v ≠ [].
Proof.
  rewrite missing_sections_nil. split; intros H key v Hv.
  - specialize (H key v Hv).
    rewrite (extract_sections_entry_trimmed _ _ _ Hv) in H. by destruct v.
  - rewrite (extract_sections_entry_trimmed _ _ _ Hv).
    specialize (H key v Hv). by destruct v.
Qed.
